(** * binGraph, [graphs/ent/graph.py]: entropy and byte-occurrence sampling

    A shallow embedding of the entropy graph module and the properties
    its specification states about it.

    Conventions of the embedding.
    - Python 3 semantics ([str] keys from [json.loads], unbounded [int],
      true division [/], floor division [//]).
    - Python [int]s are [Z].  Python [float]s are modelled by exact
      rationals [Q]: every finite float is a rational, and the claims
      settled here concern which formula is evaluated, not its rounding.
    - A file is a [list byte]; a chunk, after [list(bytearray(..))], is a
      [list Z] of values in [[0, 255]].
    - [dict]s whose iteration order is observable (the decoded JSON
      object, which decides which validation error is raised first) are
      item lists in insertion order; the [ibytes]/[byte_ranges] dicts of
      [generate] are [gmap]s.
    - Exceptions and log records are explicit: a computation is a function
      from the log so far to an outcome and the extended log.
    - [json.loads], [matplotlib.get_backend], the file system, [lief] and
      the helper [graphs.helpers.shannon_ent] live outside this module and
      are parameters.  Drawing calls that only affect presentation
      (colours, legends, tick locators) are not modelled; the data handed
      to them is. *)

From Stdlib Require Import ZArith QArith Qround Lia List Strings.Ascii Strings.Byte.
From stdpp Require Import base option list strings gmap fin_maps pretty.

Local Open Scope Z_scope.

(** ** Python preliminaries *)

(** The values [json.loads] returns: None, bool, int, float, str, list
    and dict (with its items in insertion order). *)
#[warnings="-register-all"]
Inductive json : Type :=
| JNull
| JBool (b : bool)
| JInt (z : Z)
| JFloat (lexeme : string)
| JStr (s : string)
| JList (l : list json)
| JDict (items : list (string * json)).

(** The messages of [ArgValidationEx], one constructor per format string
    of the source, carrying the values that are interpolated. *)
Inductive validation_msg : Type :=
| ErrDecoding (e : string) (text : string)
    (* 'Error decoding json --ibytes value. {}: "{}"' *)
| ErrNotList (name : string) (bytelist : json)
    (* 'Error validating --ibytes. Name is not a string or bytes not list: {} = {}' *)
| ErrNotInt (name : string) (b : json).
    (* 'Error validating --ibytes. Item in list not an int: {} = {}' *)

Inductive exn : Type :=
| ArgValidationEx (m : validation_msg)
| TypeError
| AttributeError
| ValueError
| ZeroDivisionError
| KeyError
| OSError
| NonTermination.   (* no Python exception: the loop of get_chunk did not
                       reach its break; excluded by get_chunk_total *)

(** Log records, one constructor per [log.debug]/[log.warning] call. *)
Inductive level : Type := DEBUG | WARNING.

Inductive log_msg : Type :=
| MsgBackendUntested (backend : string)
| MsgBackend (backend : string)
| MsgOpening (fname : string)
| MsgSizes (fs chunksize : Z) (nr_chunksize : Q) (chunks : Z)
| MsgIteration (chunksize : Z)
| MsgClosed (fname : string)
| MsgPlotting
| MsgUsingIbytes
| MsgBlob
| MsgParsed (format : string)
| MsgParseFailed (e : string)
| MsgPE
| MsgSection (section_name : string) (offset : Z)
| MsgNotCustomised (format : string).

Abbreviation log_record := (level * log_msg)%type.

(** Computations that may raise and that write to the log. *)
Definition py (A : Type) : Type := list log_record → (exn + A) * list log_record.

#[export] Instance py_ret : MRet py := λ A a l, (inr a, l).
#[export] Instance py_bind : MBind py := λ A B k c l,
  match c l with
  | (inl e, l') => (inl e, l')
  | (inr a, l') => k a l'
  end.

Definition raise {A} (e : exn) : py A := λ l, (inl e, l).
Definition log (lv : level) (m : log_msg) : py unit := λ l, (inr tt, l ++ [(lv, m)]).
Definition lift {A} (r : exn + A) : py A := λ l, (r, l).

(** [for x in xs: body], threading the loop-carried variables [s]. *)
Fixpoint for_each {A S} (xs : list A) (body : A → S → py S) (s : S) : py S :=
  match xs with
  | [] => mret s
  | x :: xs' => s' ← body x s; for_each xs' body s'
  end.

(** ** Module constants *)

Definition __chunks__ : Z := 750.

(** The double-quote character, for the JSON texts below. *)
Definition dq : string := String "034"%char EmptyString.

Definition __ibytes__ : string :=
  ("{" ++ dq ++ "0's" ++ dq ++ ": [0], " ++ dq ++ "Printable ASCII" ++ dq ++ ": [" ++
    "32, 33, 34, 35, 36, 37, 38, 39, 40, 41, 42, 43, 44, 45, 46, " ++
    "47, 48, 49, 50, 51, 52, 53, 54, 55, 56, 57, 58, 59, 60, 61, " ++
    "62, 63, 64, 65, 66, 67, 68, 69, 70, 71, 72, 73, 74, 75, 76, " ++
    "77, 78, 79, 80, 81, 82, 83, 84, 85, 86, 87, 88, 89, 90, 91, " ++
    "92, 93, 94, 95, 96, 97, 98, 99, 100, 101, 102, 103, 104, " ++
    "105, 106, 107, 108, 109, 110, 111, 112, 113, 114, 115, 116, " ++
    "117, 118, 119, 120, 121, 122, 123, 124, 125, 126" ++
    "], " ++ dq ++ "Exploit" ++ dq ++ ": [44, 144]}")%string.

(** [__ibytes_dict__ = json.loads(__ibytes__)], the default of [generate]. *)
Definition __ibytes_dict__ : gmap string (list Z) :=
  list_to_map
    [("0's"%string, [0]);
     ("Printable ASCII"%string, seqZ 32 95);
     ("Exploit"%string, [44; 144])].

(** ** Chunk size (lines 96-102 of [generate]) *)

(** [a // b] and [a / b] on ints; both raise on a zero divisor. *)
Definition floordiv (a b : Z) : exn + Z :=
  if b =? 0 then inl ZeroDivisionError else inr (a / b).

Definition truediv (a b : Q) : exn + Q :=
  if Qeq_bool b 0 then inl ZeroDivisionError else inr (a / b)%Q.

(** Returns [(chunksize, nr_chunksize)]. *)
Definition chunk_sizes (fs chunks : Z) : exn + (Z * Q) :=
  if chunks >? fs then inr (1, 1%Q)
  else
    match floordiv (- fs) chunks with
    | inl e => inl e
    | inr q =>
        let chunksize := - q in
        match truediv (inject_Z fs) (inject_Z chunks) with
        | inl e => inl e
        | inr nr_chunksize => inr (chunksize, nr_chunksize)
        end
    end.

(** [k] is the ceiling of [a / b], for [b > 0]. *)
Definition is_ceil (a b k : Z) : Prop := (k - 1) * b < a ≤ k * b.


(** ** Collaborators outside this module *)

Record section : Type := { name : option string; offset : Z }.

(** What [generate] uses of a [lief.PE.Binary]. *)
Record pe_binary : Type :=
  { entrypoint : Z; va_to_offset : Z → Z; sections : list section }.

Inductive binary : Type :=
| PE (format : string) (exebin : pe_binary)
| OtherBinary (format : string).

Definition format_of (exebin : binary) : string :=
  match exebin with PE f _ => f | OtherBinary f => f end.

Class Env : Type :=
  { (* json.loads: the decoded document, or the text of a JSONDecodeError *)
    json_loads : string → string + json;
    (* matplotlib.get_backend() *)
    get_backend : string;
    (* open(path, 'rb'): the content of the file, if it can be opened *)
    open_rb : string → option (list byte);
    (* lief.parse: the parsed binary, or the text of a lief.bad_file *)
    lief_parse : string → string + binary;
    (* graphs.helpers.shannon_ent *)
    shannon_ent : list Z → Q }.

(** ** [args_validation] *)

Record Args : Type :=
  { graphtype : string; ibytes : option string; chunks : Z }.

(** The two attributes [args_validation] leaves on [args]. *)
Record ValidArgs : Type := { v_ibytes : json; v_chunks : Z }.

Definition is_list (v : json) : bool :=
  match v with JList _ => true | _ => false end.

Definition is_int (v : json) : bool :=
  match v with JInt _ => true | _ => false end.

(** [len(v)] *)
Definition py_len (v : json) : exn + Z :=
  match v with
  | JStr s => inr (Z.of_nat (String.length s))
  | JList l => inr (Z.of_nat (length l))
  | JDict items => inr (Z.of_nat (length items))
  | JNull | JBool _ | JInt _ | JFloat _ => inl TypeError
  end.

(** The values produced by [for b in v]. *)
Definition py_iter (v : json) : exn + list json :=
  match v with
  | JStr s => inr ((λ c, JStr (String c EmptyString)) <$> String.list_ascii_of_string s)
  | JList l => inr l
  | JDict items => inr ((λ kv, JStr kv.1) <$> items)
  | JNull | JBool _ | JInt _ | JFloat _ => inl TypeError
  end.

(** [v.items()] *)
Definition py_items (v : json) : exn + list (string * json) :=
  match v with
  | JDict items => inr items
  | _ => inl AttributeError
  end.

(** Lines 84-86. *)
Definition check_item (name : string) (b : json) : py unit :=
  if negb (is_int b) then raise (ArgValidationEx (ErrNotInt name b))
  else mret tt.

(** Lines 81-86: the body of the loop over [args.ibytes.items()].  A key
    of a decoded JSON object is a [str], so [type(name) == str] holds. *)
Definition check_group (name : string) (bytelist : json) : py unit :=
  let name_is_str := true in
  if negb (name_is_str || is_list bytelist)
  then raise (ArgValidationEx (ErrNotList name bytelist))
  else
    n ← lift (py_len bytelist);
    if negb (n >? 0)
    then raise (ArgValidationEx (ErrNotList name bytelist))
    else
      bs ← lift (py_iter bytelist);
      for_each bs (λ b _, check_item name b) tt.

(** Lines 79-86. *)
Definition check_ibytes (doc : json) : py unit :=
  items ← lift (py_items doc);
  for_each items (λ kv _, check_group kv.1 kv.2) tt.

Definition args_validation `{Env} (args : Args) : py ValidArgs :=
  let backend := get_backend in
  (if negb (String.eqb backend "TkAgg")
   then log WARNING (MsgBackendUntested backend)
   else log DEBUG (MsgBackend backend));;
  let args :=
    if String.eqb (graphtype args) "all"
    then {| graphtype := graphtype args; ibytes := Some __ibytes__; chunks := __chunks__ |}
    else args in
  doc ← match ibytes args with
        | None => mret (JDict [])   (* json.loads('{}') *)
        | Some text =>
            match json_loads text with
            | inr doc => mret doc
            | inl e => raise (ArgValidationEx (ErrDecoding e text))
            end
        end;
  check_ibytes doc;;
  mret {| v_ibytes := doc; v_chunks := chunks args |}.

(** ** Reading the file in chunks: [get_chunk] *)

(** An open binary file: its content and the read position. *)
Record file_handle : Type := { fh_data : list byte; fh_pos : nat }.

Definition open_handle (data : list byte) : file_handle :=
  {| fh_data := data; fh_pos := 0 |}.

(** The part of the file that has not been read yet. *)
Definition unread (fh : file_handle) : list byte := drop (fh_pos fh) (fh_data fh).

(** The bytes [read(size)] returns when [rest] is still unread, for a
    file opened with ['rb']: at most [size] of them, all of them when
    [size] is -1; a size below -1 raises ValueError ("read length must be
    non-negative or -1").  The size is taken to fit the platform's
    [ssize_t] ([fits_ssize_t] below), beyond which the conversion of the
    argument raises OverflowError; the chunk sizes [generate] computes lie
    between [-fs] and [max(1, fs)] and always fit. *)
Definition read_prefix (size : Z) (rest : list byte) : exn + list byte :=
  if size <? -1 then inl ValueError
  else if size =? -1 then inr rest
  else inr (take (Z.to_nat size) rest).

(** The range of [ssize_t] on a 64-bit build. *)
Definition fits_ssize_t (size : Z) : Prop := - 2 ^ 63 ≤ size ≤ 2 ^ 63 - 1.

(** [fh.read(size)] *)
Definition fh_read (fh : file_handle) (size : Z) : exn + (list byte * file_handle) :=
  match read_prefix size (unread fh) with
  | inl e => inl e
  | inr chunk =>
      inr (chunk, {| fh_data := fh_data fh; fh_pos := (fh_pos fh + length chunk)%nat |})
  end.

(** [list(bytearray(chunk))] *)
Definition ints_of_bytes (chunk : list byte) : list Z :=
  (λ b, Z.of_N (Byte.to_N b)) <$> chunk.

(** The [while True] loop of [get_chunk]: the chunks it yields, or the
    exception a read raises; [None] when the fuel runs out before the
    loop reaches its [break]. *)
Fixpoint get_chunk_loop (fuel : nat) (fh : file_handle) (chunksize : Z)
  : option (exn + list (list Z)) :=
  match fuel with
  | O => None
  | S fuel' =>
      match fh_read fh chunksize with
      | inl e => Some (inl e)
      | inr (chunk, fh') =>
          match chunk with
          | _ :: _ =>
              match get_chunk_loop fuel' fh' chunksize with
              | Some (inr chunks) => Some (inr (ints_of_bytes chunk :: chunks))
              | Some (inl e) => Some (inl e)
              | None => None
              end
          | [] => Some (inr [])
          end
      end
  end.

(** The chunks yielded by [get_chunk(fh, chunksize)], in order, or the
    exception raised while iterating.  Every iteration that does not
    break consumes at least one byte, so one more iteration than there
    are bytes is enough ([get_chunk_total]). *)
Definition get_chunk (fh : file_handle) (chunksize : Z) : option (exn + list (list Z)) :=
  get_chunk_loop (S (length (fh_data fh))) fh chunksize.

(** The chunks of [rest] for reads of [size] bytes, as a relation: the
    loop breaks on an empty read and otherwise yields what was read and
    goes on with what follows it. *)
Inductive chunked (size : Z) : list byte → list (list Z) → Prop :=
| chunked_break rest :
    read_prefix size rest = inr [] →
    chunked size rest []
| chunked_yield rest chunk chunks :
    read_prefix size rest = inr chunk →
    chunk ≠ [] →
    chunked size (drop (length chunk) rest) chunks →
    chunked size rest (ints_of_bytes chunk :: chunks).

(** ** Byte occurrences *)

(** [Counter(chunk)]: a dict from value to number of occurrences ... *)
Definition Counter (chunk : list Z) : gmap Z Z :=
  foldr (λ x cbytes, <[x := default 0 (cbytes !! x) + 1]> cbytes) ∅ chunk.

(** ... whose lookup [cbytes[b]] gives 0 for a missing key. *)
Definition counter_get (cbytes : gmap Z Z) (b : Z) : Z := default 0 (cbytes !! b).

(** Lines 128-130. *)
Definition occurrences (cbytes : gmap Z Z) (b_range : list Z) : Z :=
  foldl (λ occurrence b, occurrence + counter_get cbytes b) 0 b_range.

(** Line 132: [(float(occurrence)/float(len(chunk)))*100]. *)
Definition percentage (occurrence : Z) (chunk : list Z) : exn + Q :=
  match truediv (inject_Z occurrence) (inject_Z (Z.of_nat (length chunk))) with
  | inl e => inl e
  | inr q => inr (q * 100)%Q
  end.

(** Lines 126-132: the body of the loop over [ibytes.items()]. *)
Definition track_group (chunk : list Z) (cbytes : gmap Z Z)
    (item : string * list Z) (byte_ranges : gmap string (list Q))
  : py (gmap string (list Q)) :=
  let '(label, b_range) := item in
  let occurrence := occurrences cbytes b_range in
  pc ← lift (percentage occurrence chunk);
  match byte_ranges !! label with
  | Some series => mret (<[label := series ++ [pc]]> byte_ranges)
  | None => raise KeyError
  end.

(** ** The sampling pass (lines 92-134 of [generate]) *)

(** [statistics.median] of a two-element list: the mean of the two. *)
Definition median2 (a b : Q) : Q := ((a + b) / 2)%Q.

(** The variables carried around the loop over the chunks. *)
Record loop_state : Type :=
  { st_shannon_samples : list Q;
    st_prev_ent : Q;
    st_byte_ranges : gmap string (list Q) }.

(** Lines 116-132: the body of the loop over the chunks. *)
Definition sample_chunk `{Env} (ibytes : gmap string (list Z))
    (chunk : list Z) (st : loop_state) : py loop_state :=
  let real_ent := shannon_ent chunk in
  let ent := median2 real_ent (st_prev_ent st) in
  let prev_ent := real_ent in
  let ent := real_ent in
  let shannon_samples := st_shannon_samples st ++ [ent] in
  byte_ranges ←
    (if Z.of_nat (size ibytes) >? 0
     then
       let cbytes := Counter chunk in
       for_each (map_to_list ibytes) (track_group chunk cbytes) (st_byte_ranges st)
     else mret (st_byte_ranges st));
  mret {| st_shannon_samples := shannon_samples;
          st_prev_ent := prev_ent;
          st_byte_ranges := byte_ranges |}.

(** What the pass leaves behind for the rest of [generate]. *)
Record Samples : Type :=
  { s_chunksize : Z;
    s_nr_chunksize : Q;
    s_shannon_samples : list Q;
    s_byte_ranges : gmap string (list Q) }.

(** The [with open(abs_fpath, 'rb') as fh] block.  [byte_ranges] is only
    bound when [ibytes] is not empty, and only used then; the empty dict
    stands for the unbound name. *)
Definition sample_file `{Env} (abs_fpath fname : string) (chunks : Z)
    (ibytes : gmap string (list Z)) : py Samples :=
  match open_rb abs_fpath with
  | None => raise OSError
  | Some data =>
      let fh := open_handle data in
      log DEBUG (MsgOpening fname);;
      let fs := Z.of_nat (length data) in
      '(chunksize, nr_chunksize) ← lift (chunk_sizes fs chunks);
      log DEBUG (MsgSizes fs chunksize nr_chunksize chunks);;
      let byte_ranges : gmap string (list Q) :=
        if Z.of_nat (size ibytes) >? 0 then (λ _, []) <$> ibytes else ∅ in
      log DEBUG (MsgIteration chunksize);;
      match get_chunk fh chunksize with
      | None => raise NonTermination
      | Some (inl e) => raise e
      | Some (inr chunks_read) =>
          st ← for_each chunks_read (sample_chunk ibytes)
                 {| st_shannon_samples := []; st_prev_ent := 0;
                    st_byte_ranges := byte_ranges |};
          mret {| s_chunksize := chunksize;
                  s_nr_chunksize := nr_chunksize;
                  s_shannon_samples := st_shannon_samples st;
                  s_byte_ranges := st_byte_ranges st |}
      end
  end.

(** ** Offsets and chunk coordinates *)

(** Lines 191 and 202: a file offset on the chunk axis,
    [offset / nr_chunksize]. *)
Definition chunk_index_of (nr_chunksize : Q) (offset : Z) : exn + Q :=
  truediv (inject_Z offset) nr_chunksize.

(** Line 144: a position on the chunk axis back to a file offset,
    [x * nr_chunksize] ... *)
Definition offset_of (nr_chunksize : Q) (x : Q) : Q := (x * nr_chunksize)%Q.

(** ... which the tick formatter truncates with [int(..)] before printing
    it in hexadecimal. *)
Definition py_int (q : Q) : Z := Z.quot (Qnum q) (Z.pos (Qden q)).

Definition tick_offset (nr_chunksize : Q) (x : Q) : Z :=
  py_int (offset_of nr_chunksize x).

(** ** Section names *)

(** The arguments [str.format] can receive here. *)
Inductive pyval : Type := PInt (z : Z) | PStr (s : string).

(** [str(index)] *)
Definition py_str (index : Z) : pyval := PStr (pretty index).

(** ['{:d}'.format(v)]: the format code [d] is defined for integers and
    raises ValueError for an object of type [str]. *)
Definition format_d (v : pyval) : exn + string :=
  match v with
  | PInt z => inr (pretty z)
  | PStr _ => inl ValueError
  end.

Definition safe_section_name (s_name : option string) (index : Z) : exn + string :=
  match s_name with
  | Some (String c s) => inr (String c s)
  | Some EmptyString | None =>
      match format_d (py_str index) with
      | inl e => inl e
      | inr d => inr ("sect_" ++ d)%string
      end
  end.

(** ** [generate] *)

(** A landmark drawn by [host.axvline] and [host.text]: label and
    position on the chunk axis. *)
Definition annotation : Type := string * Q.

(** The variables carried around the loop over the sections. *)
Record section_state : Type :=
  { annotations_so_far : list annotation; longest_section_name : Z }.

(** Lines 199-210: the body of the loop over [enumerate(exebin.sections)]. *)
Definition annotate_section (nr_chunksize : Q) (item : Z * section)
    (st : section_state) : py section_state :=
  let '(index, sect) := item in
  section_name ← lift (safe_section_name (name sect) index);
  section_offset ← lift (chunk_index_of nr_chunksize (offset sect));
  log DEBUG (MsgSection section_name (offset sect));;
  let len := Z.of_nat (String.length section_name) in
  mret {| annotations_so_far := annotations_so_far st ++ [(section_name, section_offset)];
          longest_section_name :=
            if len >? longest_section_name st then len else longest_section_name st |}.

(** Lines 172-216.  Returns the landmarks and the number of newlines of
    [title_gap]. *)
Definition annotate `{Env} (abs_fpath : string) (blob : bool) (nr_chunksize : Q)
  : py (list annotation * Z) :=
  let title_gap := 1 in
  if blob then
    log WARNING MsgBlob;;
    mret ([], title_gap)
  else
    exebin ← match lief_parse abs_fpath with
             | inr exebin =>
                 log DEBUG (MsgParsed (format_of exebin));;
                 mret (Some exebin)
             | inl e =>
                 log WARNING (MsgParseFailed e);;
                 mret None
             end;
    match exebin with
    | Some (PE _ exebin) =>
        log DEBUG MsgPE;;
        v_ep ← lift (chunk_index_of nr_chunksize (va_to_offset exebin (entrypoint exebin)));
        let sects := sections exebin in
        st ← for_each (zip (seqZ 0 (Z.of_nat (length sects))) sects)
               (annotate_section nr_chunksize)
               {| annotations_so_far := [("EP"%string, v_ep)]; longest_section_name := 0 |};
        mret (annotations_so_far st, longest_section_name st / 3)
    | Some (OtherBinary format) =>
        log DEBUG (MsgNotCustomised format);;
        mret ([], title_gap)
    | None => mret ([], title_gap)
    end.

(** What [generate] hands to the plotting library. *)
Record Figure : Type :=
  { chunksize : Z;                              (* in the title *)
    nr_chunksize : Q;                           (* in the tick formatter *)
    entropy_series : list Q;                    (* host.plot *)
    percentage_series : gmap string (list Q);   (* axBytePc.plot, per label *)
    annotations : list annotation;              (* host.axvline, host.text *)
    title_gap : Z }.

Definition generate `{Env} (abs_fpath fname : string) (blob : bool) (chunks : Z)
    (ibytes : gmap string (list Z)) : py Figure :=
  s ← sample_file abs_fpath fname chunks ibytes;
  log DEBUG (MsgClosed fname);;
  log DEBUG MsgPlotting;;
  percentages ←
    (if Z.of_nat (size ibytes) >? 0
     then log DEBUG MsgUsingIbytes;; mret (s_byte_ranges s)
     else mret ∅);
  '(annotations, title_gap) ← annotate abs_fpath blob (s_nr_chunksize s);
  mret {| chunksize := s_chunksize s;
          nr_chunksize := s_nr_chunksize s;
          entropy_series := s_shannon_samples s;
          percentage_series := percentages;
          annotations := annotations;
          title_gap := title_gap |}.

(** ** Vocabulary of the properties *)

(** The number of bytes of [chunk] equal to [b]. *)
Definition count_of (b : Z) (chunk : list Z) : Z :=
  Z.of_nat (length (filter (λ x, x = b) chunk)).

(** The number of bytes of [chunk] whose value is listed in [b_range]. *)
Definition matching (b_range chunk : list Z) : Z :=
  Z.of_nat (length (filter (λ x, x ∈ b_range) chunk)).

(** The counts of the values of [b_range], one summand per entry of the
    list. *)
Definition listed_occurrences (b_range chunk : list Z) : Z :=
  foldr (λ b acc, count_of b chunk + acc) 0 b_range.

(** [n] out of the bytes of [chunk], in percent. *)
Definition percent_of (n : Z) (chunk : list Z) : Q :=
  (inject_Z n / inject_Z (Z.of_nat (length chunk)) * 100)%Q.

(** The value appended to the series of a group for [chunk]. *)
Definition group_percentage (b_range chunk : list Z) : Q :=
  percent_of (occurrences (Counter chunk) b_range) chunk.

(** The shape of a decoded [--ibytes] document that passes validation: an
    object whose values are non-empty lists of integers. *)
Definition int_list (v : json) : Prop :=
  ∃ bs, v = JList bs ∧ bs ≠ [] ∧ Forall (λ b, ∃ z, b = JInt z) bs.

Definition accepted_shape (doc : json) : Prop :=
  ∃ items, doc = JDict items ∧ Forall (λ kv : string * json, int_list kv.2) items.

(** A group value that has no [len]: a number, a boolean or null. *)
Definition is_scalar (v : json) : bool :=
  match v with
  | JNull | JBool _ | JInt _ | JFloat _ => true
  | JStr _ | JList _ | JDict _ => false
  end.

(** ** An environment for the examples *)

(** A stand-in for [shannon_ent]: exact (0) on a chunk with one distinct
    byte value, 1 on every other chunk. *)
Definition example_ent (chunk : list Z) : Q :=
  match chunk with
  | [] => 0
  | x :: rest => if forallb (Z.eqb x) rest then 0 else 1
  end.

(** [json.loads] on the texts used in the examples; every other text is
    taken to be malformed. *)
Definition example_loads (text : string) : string + json :=
  if String.eqb text ("{" ++ dq ++ "g" ++ dq ++ ": [300]}")
  then inr (JDict [("g"%string, JList [JInt 300])])
  else if String.eqb text ("{" ++ dq ++ "g" ++ dq ++ ": [-1]}")
  then inr (JDict [("g"%string, JList [JInt (-1)])])
  else if String.eqb text ("{" ++ dq ++ "g" ++ dq ++ ": 5}")
  then inr (JDict [("g"%string, JInt 5)])
  else if String.eqb text ("{" ++ dq ++ "g" ++ dq ++ ": []}")
  then inr (JDict [("g"%string, JList [])])
  else inl "Expecting property name enclosed in double quotes"%string.

(** Two files: 1000 zero bytes, and three bytes that are no executable. *)
Definition example_open (path : string) : option (list byte) :=
  if String.eqb path "/tmp/zeros.bin" then Some (replicate 1000 x00)
  else if String.eqb path "/tmp/tiny.bin" then Some [x4d; x5a; x00]
  else None.

Definition example_env : Env :=
  {| json_loads := example_loads;
     get_backend := "TkAgg"%string;
     open_rb := example_open;
     lief_parse := λ _, inl "Unknown format"%string;
     shannon_ent := example_ent |}.

(** The record [args_validation] logs about the matplotlib backend. *)
Definition backend_record `{Env} : log_record :=
  if negb (String.eqb get_backend "TkAgg")
  then (WARNING, MsgBackendUntested get_backend)
  else (DEBUG, MsgBackend get_backend).

(** ** Further vocabulary *)

(** The dict of percentage series for the chunks of a file: one series
    per group, with one value per chunk. *)
Definition series_of (ibytes : gmap string (list Z)) (chunks_read : list (list Z))
  : gmap string (list Q) :=
  (λ b_range, group_percentage b_range <$> chunks_read) <$> ibytes.

(** A section with a usable name, and the label and landmark it gets. *)
Definition section_named (sect : section) : Prop :=
  ∃ c s, name sect = Some (String c s).

Definition section_label (sect : section) : string :=
  default EmptyString (name sect).

Definition section_landmark (nr_chunksize : Q) (sect : section) : annotation :=
  (section_label sect, (inject_Z (offset sect) / nr_chunksize)%Q).

(** The greatest of [m] and the lengths of the labels. *)
Definition longest_label_from (m : Z) (sects : list section) : Z :=
  foldl (λ m sect, Z.max m (Z.of_nat (String.length (section_label sect)))) m sects.

(** The length of the longest label, 0 without sections. *)
Definition longest_label (sects : list section) : Z := longest_label_from 0 sects.

(** ** Further environments for the examples *)

(** [json.loads] given by a table of texts and the documents they decode
    to; a text that is not in the table is taken to be malformed. *)
Fixpoint loads_table (table : list (string * json)) (text : string) : string + json :=
  match table with
  | [] => inl "Expecting value"%string
  | (t, doc) :: table' => if String.eqb t text then inr doc else loads_table table' text
  end.

(** The example environment with another decoder and another outcome of
    the parser. *)
Definition env_with (table : list (string * json)) (parsed : string + binary) : Env :=
  {| json_loads := loads_table table;
     get_backend := "TkAgg"%string;
     open_rb := example_open;
     lief_parse := λ _, parsed;
     shannon_ent := example_ent |}.

(** A PE file with two named sections. *)
Definition example_pe : pe_binary :=
  {| entrypoint := 4198400;
     va_to_offset := λ va, va - 4194304;
     sections := [ {| name := Some ".text"%string; offset := 1024 |};
                   {| name := Some ".data"%string; offset := 8192 |} ] |}.

(** The records [generate] logs between the sampling pass and the
    format-specific part. *)
Definition log_after_sampling (fname : string) (ibytes : gmap string (list Z))
  : list log_record :=
  [(DEBUG, MsgClosed fname); (DEBUG, MsgPlotting)]
  ++ (if Z.of_nat (size ibytes) >? 0 then [(DEBUG, MsgUsingIbytes)] else []).

(** The figure [generate] assembles from the sampling pass and the
    landmarks. *)
Definition figure_of (ibytes : gmap string (list Z)) (s : Samples)
    (landmarks : list annotation) (gap : Z) : Figure :=
  {| chunksize := s_chunksize s;
     nr_chunksize := s_nr_chunksize s;
     entropy_series := s_shannon_samples s;
     percentage_series := if Z.of_nat (size ibytes) >? 0 then s_byte_ranges s else ∅;
     annotations := landmarks;
     title_gap := gap |}.

(** A PE file whose second section has an empty name. *)
Definition example_pe_unnamed : pe_binary :=
  {| entrypoint := 4198400;
     va_to_offset := λ va, va - 4194304;
     sections := [ {| name := Some ".text"%string; offset := 1024 |};
                   {| name := Some EmptyString; offset := 8192 |} ] |}.

(** The document [json.loads(__ibytes__)] returns. *)
Definition __ibytes_json__ : json :=
  JDict [("0's"%string, JList [JInt 0]);
         ("Printable ASCII"%string, JList (JInt <$> seqZ 32 95));
         ("Exploit"%string, JList [JInt 44; JInt 144])].

(** An environment in which every path opens the same file. *)
Definition env_with_file (data : list byte) : Env :=
  {| json_loads := example_loads;
     get_backend := "TkAgg"%string;
     open_rb := λ _, Some data;
     lief_parse := λ _, inl "Unknown format"%string;
     shannon_ent := example_ent |}.
(** * Properties *)

(** ** Chunk size *)

Lemma neg_floordiv_is_ceil (a b : Z) : 0 < b → is_ceil a b (- (- a / b)).
Proof.
  intros Hb. unfold is_ceil.
  pose proof (Z.div_mod (- a) b ltac:(lia)) as Hdm.
  pose proof (Z.mod_pos_bound (- a) b Hb) as Hm.
  nia.
Qed.

Lemma is_ceil_unique (a b k k' : Z) : 0 < b → is_ceil a b k → is_ceil a b k' → k = k'.
Proof. unfold is_ceil. intros Hb [H1 H2] [H3 H4]. nia. Qed.

Lemma inject_Z_nonzero (n : Z) : n ≠ 0 → Qeq_bool (inject_Z n) 0 = false.
Proof.
  intros Hn. destruct (Qeq_bool (inject_Z n) 0) eqn:E; [|done].
  apply Qeq_bool_iff in E. unfold Qeq, inject_Z in E. simpl in E. lia.
Qed.

Lemma chunk_sizes_small (fs chunks : Z) :
  chunks > fs → chunk_sizes fs chunks = inr (1, 1%Q).
Proof. intros H. unfold chunk_sizes. by rewrite (proj2 (Z.gtb_gt _ _)). Qed.

Lemma chunk_sizes_large (fs chunks : Z) :
  chunks ≤ fs → chunks ≠ 0 →
  chunk_sizes fs chunks = inr (- (- fs / chunks), (inject_Z fs / inject_Z chunks)%Q).
Proof.
  intros Hle Hnz. unfold chunk_sizes, floordiv, truediv.
  destruct (chunks >? fs) eqn:E; [apply Z.gtb_gt in E; lia|].
  rewrite (proj2 (Z.eqb_neq _ _) Hnz). by rewrite inject_Z_nonzero.
Qed.

(** For a chunk count of at least 1 the computation does not raise. *)
Lemma chunk_sizes_defined (fs n : Z) :
  0 ≤ fs → 1 ≤ n → ∃ chunksize nr_chunksize, chunk_sizes fs n = inr (chunksize, nr_chunksize).
Proof.
  intros Hfs Hn. destruct (Z_lt_le_dec fs n) as [Hlt | Hle].
  - eexists _, _. apply chunk_sizes_small. lia.
  - eexists _, _. apply chunk_sizes_large; lia.
Qed.

(** C1, as stated, at a 5-byte file split into 10 chunks: the scale
    factor computed by the code is 1, which is not 5/10. *)
Lemma chunk_sizes_scale_counterexample :
  chunk_sizes 5 10 = inr (1, 1%Q) ∧ ¬ (1 == inject_Z 5 / inject_Z 10)%Q.
Proof. split; [reflexivity | by intros H]. Qed.

(** C1 (amended).  For every file size [fs >= 0] and chunk count
    [n >= 1] the computation succeeds; the chunk size is [ceil(fs / n)]
    when [fs > n] and 1 otherwise; the scale factor is the exact quotient
    [fs / n] when [n <= fs], and 1 when [n > fs]. *)
Theorem chunk_sizes_spec (fs n : Z) :
  0 ≤ fs → 1 ≤ n →
  ∃ chunksize nr_chunksize,
    chunk_sizes fs n = inr (chunksize, nr_chunksize) ∧
    (n < fs → is_ceil fs n chunksize) ∧
    (fs ≤ n → chunksize = 1) ∧
    (n ≤ fs → (nr_chunksize == inject_Z fs / inject_Z n)%Q) ∧
    (fs < n → nr_chunksize = 1%Q).
Proof.
  intros Hfs Hn. destruct (Z_lt_le_dec fs n) as [Hlt | Hle].
  - exists 1, 1%Q. rewrite chunk_sizes_small by lia.
    repeat split; intros; try lia; done.
  - eexists _, _. rewrite chunk_sizes_large by lia. split; [done|].
    split; [intros _; apply neg_floordiv_is_ceil; lia|].
    split; [|split; [done | lia]].
    intros Heq. assert (fs = n) as -> by lia.
    apply (is_ceil_unique n n); [lia | apply neg_floordiv_is_ceil; lia |].
    unfold is_ceil. lia.
Qed.

Lemma chunk_sizes_spec_witness :
  ∃ chunksize nr_chunksize,
    chunk_sizes 1000 10 = inr (chunksize, nr_chunksize) ∧
    (10 < 1000 → is_ceil 1000 10 chunksize) ∧
    (1000 ≤ 10 → chunksize = 1) ∧
    (10 ≤ 1000 → (nr_chunksize == inject_Z 1000 / inject_Z 10)%Q) ∧
    (1000 < 10 → nr_chunksize = 1%Q).
Proof. apply (chunk_sizes_spec 1000 10); lia. Defined.

(** ** The chunk stream *)

Lemma read_prefix_valid (size : Z) (rest : list byte) :
  -1 ≤ size → ∃ chunk, read_prefix size rest = inr chunk.
Proof.
  intros Hs. unfold read_prefix.
  destruct (Z.ltb_spec size (-1)); [lia|]. destruct (size =? -1); by eexists.
Qed.

Lemma read_prefix_invalid (size : Z) (rest : list byte) :
  size < -1 → read_prefix size rest = inl ValueError.
Proof. intros Hs. unfold read_prefix. by destruct (Z.ltb_spec size (-1)); [|lia]. Qed.

Lemma read_prefix_all (rest : list byte) : read_prefix (-1) rest = inr rest.
Proof. reflexivity. Qed.

Lemma read_prefix_take (size : Z) (rest : list byte) :
  0 ≤ size → read_prefix size rest = inr (take (Z.to_nat size) rest).
Proof.
  intros Hs. unfold read_prefix. destruct (Z.ltb_spec size (-1)); [lia|].
  by destruct (Z.eqb_spec size (-1)); [lia|].
Qed.

Lemma read_prefix_cases (size : Z) (rest chunk : list byte) :
  read_prefix size rest = inr chunk →
  (size = -1 ∧ chunk = rest) ∨ (0 ≤ size ∧ chunk = take (Z.to_nat size) rest).
Proof.
  unfold read_prefix. destruct (Z.ltb_spec size (-1)); [done|].
  destruct (Z.eqb_spec size (-1)); intros Hr; inversion Hr; [by left | right; split; [lia | done]].
Qed.

Lemma read_prefix_length (size : Z) (rest chunk : list byte) :
  0 ≤ size → read_prefix size rest = inr chunk →
  Z.of_nat (length chunk) = Z.min size (Z.of_nat (length rest)).
Proof.
  intros Hs Hr. rewrite read_prefix_take in Hr by done. inversion Hr.
  rewrite length_take. lia.
Qed.

Lemma read_prefix_length_le (size : Z) (rest chunk : list byte) :
  read_prefix size rest = inr chunk → (length chunk ≤ length rest)%nat.
Proof.
  intros [[_ ->] | [_ ->]]%read_prefix_cases; [done|]. rewrite length_take. lia.
Qed.

(** What was read and what is left make up what was unread. *)
Lemma read_prefix_split (size : Z) (rest chunk : list byte) :
  read_prefix size rest = inr chunk → chunk ++ drop (length chunk) rest = rest.
Proof.
  intros [[_ ->] | [_ ->]]%read_prefix_cases.
  - by rewrite drop_all, app_nil_r.
  - rewrite length_take. destruct (decide (Z.to_nat size ≤ length rest)%nat).
    + rewrite Nat.min_l by done. apply take_drop.
    + rewrite Nat.min_r by lia. by rewrite take_ge, drop_all, app_nil_r by lia.
Qed.

Lemma read_prefix_nil (size : Z) (chunk : list byte) :
  read_prefix size [] = inr chunk → chunk = [].
Proof. intros [[_ ->] | [_ ->]]%read_prefix_cases; [done | by rewrite take_nil]. Qed.

Lemma fh_read_inv (fh fh' : file_handle) (size : Z) (chunk : list byte) :
  fh_read fh size = inr (chunk, fh') →
  read_prefix size (unread fh) = inr chunk ∧
  unread fh' = drop (length chunk) (unread fh).
Proof.
  unfold fh_read. destruct (read_prefix size (unread fh)) as [e|chunk0]; [done|].
  intros Hr. inversion Hr; subst. split; [done|]. unfold unread. simpl.
  by rewrite drop_drop.
Qed.

Lemma get_chunk_loop_chunked (size : Z) (fuel : nat) (fh : file_handle) :
  -1 ≤ size → (length (unread fh) < fuel)%nat →
  ∃ chunks, get_chunk_loop fuel fh size = Some (inr chunks) ∧ chunked size (unread fh) chunks.
Proof.
  intros Hs. revert fh. induction fuel as [|fuel IH]; intros fh Hfuel; [lia|].
  cbn [get_chunk_loop].
  destruct (fh_read fh size) as [e|[chunk fh']] eqn:Hread.
  { unfold fh_read in Hread. destruct (read_prefix_valid size (unread fh) Hs) as [c Hc].
    by rewrite Hc in Hread. }
  apply fh_read_inv in Hread as [Hchunk Hrest].
  pose proof (read_prefix_length_le _ _ _ Hchunk) as Hle.
  destruct chunk as [|b chunk].
  - exists []. split; [done|]. by apply chunked_break.
  - destruct (IH fh') as (chunks & -> & Hchunks).
    { rewrite Hrest, length_drop. simpl in *. lia. }
    eexists. split; [done|]. apply chunked_yield; [done | done |]. by rewrite <- Hrest.
Qed.

(** [get_chunk] terminates on every file, for every chunk size that
    [read] accepts. *)
Lemma get_chunk_total (data : list byte) (size : Z) :
  -1 ≤ size →
  ∃ chunks, get_chunk (open_handle data) size = Some (inr chunks) ∧ chunked size data chunks.
Proof.
  intros Hs.
  destruct (get_chunk_loop_chunked size (S (length data)) (open_handle data) Hs)
    as (chunks & H1 & H2); [unfold unread; simpl; rewrite drop_0; lia|].
  exists chunks. split; [done|]. unfold unread in H2. simpl in H2. by rewrite drop_0 in H2.
Qed.

(** A chunk size below -1 makes the first read raise. *)
Lemma get_chunk_invalid_size (data : list byte) (size : Z) :
  size < -1 → get_chunk (open_handle data) size = Some (inl ValueError).
Proof.
  intros Hs. unfold get_chunk. cbn [get_chunk_loop]. unfold fh_read.
  by rewrite read_prefix_invalid.
Qed.

Lemma ints_of_bytes_length (chunk : list byte) :
  length (ints_of_bytes chunk) = length chunk.
Proof. unfold ints_of_bytes. by rewrite length_fmap. Qed.

Lemma chunked_nonempty (size : Z) (rest : list byte) (chunks : list (list Z)) :
  chunked size rest chunks → Forall (λ c, c ≠ []) chunks.
Proof.
  induction 1 as [|rest chunk chunks _ Hne _ IH]; constructor; [|done].
  intros Heq. apply Hne. apply (f_equal length) in Heq.
  rewrite ints_of_bytes_length in Heq. by apply length_zero_iff_nil.
Qed.

Lemma chunked_length_le (size : Z) (rest : list byte) (chunks : list (list Z)) :
  0 ≤ size → chunked size rest chunks →
  Forall (λ c, Z.of_nat (length c) ≤ size) chunks.
Proof.
  intros Hs. induction 1 as [|rest chunk chunks Hchunk _ _ IH]; constructor; [|done].
  rewrite ints_of_bytes_length, (read_prefix_length size rest chunk) by done. lia.
Qed.

Lemma chunked_nil_inv (size : Z) (chunks : list (list Z)) :
  chunked size [] chunks → chunks = [].
Proof.
  inversion 1 as [|rest chunk chunks' Hchunk Hne _]; [done|]. exfalso. apply Hne.
  by apply (read_prefix_nil size).
Qed.

(** A chunk that is followed by another one is a full chunk. *)
Lemma chunked_full (size : Z) (rest : list byte) (chunks : list (list Z)) :
  0 ≤ size → chunked size rest chunks →
  ∀ (i : nat) c, chunks !! i = Some c → (S i < length chunks)%nat →
    Z.of_nat (length c) = size.
Proof.
  intros Hs. induction 1 as [|rest chunk chunks Hchunk Hne Hnext IH]; intros i c Hi Hlt; [done|].
  destruct i as [|i]; simpl in *; [|apply (IH i); [done | lia]].
  inversion Hi; subst c.
  pose proof (read_prefix_length size rest chunk Hs Hchunk) as Hlen.
  rewrite ints_of_bytes_length, Hlen.
  destruct (Z_le_gt_dec size (Z.of_nat (length rest))) as [Hle | Hgt]; [lia|].
  exfalso. assert (drop (length chunk) rest = []) as Hnil by (apply drop_ge; lia).
  rewrite Hnil in Hnext. apply chunked_nil_inv in Hnext. subst chunks. simpl in Hlt. lia.
Qed.

Lemma chunked_count (size : Z) (rest : list byte) (chunks : list (list Z)) :
  1 ≤ size → chunked size rest chunks →
  is_ceil (Z.of_nat (length rest)) size (Z.of_nat (length chunks)).
Proof.
  intros Hs. induction 1 as [rest Hnil|rest chunk chunks Hchunk Hne _ IH]; unfold is_ceil in *.
  - pose proof (read_prefix_length size rest [] ltac:(lia) Hnil) as Hlen.
    change (length (@nil (list Z))) with 0%nat. change (length (@nil byte)) with 0%nat in Hlen.
    lia.
  - assert (length chunk ≠ 0%nat) as Hlen by (by intros ?%length_zero_iff_nil).
    pose proof (read_prefix_length size rest chunk ltac:(lia) Hchunk) as Hmin.
    rewrite length_drop in IH. simpl length. rewrite Nat2Z.inj_succ.
    destruct (Z_le_gt_dec size (Z.of_nat (length rest))) as [Hle | Hgt].
    + rewrite Nat2Z.inj_sub, Hmin, Z.min_l in IH by lia. lia.
    + rewrite Z.min_r in Hmin by lia.
      replace (length rest - length chunk)%nat with 0%nat in IH by lia.
      assert (Z.of_nat (length chunks) = 0) as -> by nia. lia.
Qed.

(** No byte is lost or repeated. *)
Lemma chunked_concat (size : Z) (rest : list byte) (chunks : list (list Z)) :
  size ≠ 0 → chunked size rest chunks → concat chunks = ints_of_bytes rest.
Proof.
  intros Hs. induction 1 as [rest Hnil|rest chunk chunks Hchunk _ _ IH]; simpl.
  - apply read_prefix_cases in Hnil as [[_ <-] | [Hpos Hnil]]; [done|].
    destruct rest; [done|]. by destruct (Z.to_nat size) eqn:E; [lia|].
  - rewrite IH. unfold ints_of_bytes. rewrite <- fmap_app. f_equal.
    by apply (read_prefix_split size).
Qed.

(** ** Byte occurrences *)

Lemma counter_get_Counter (chunk : list Z) (b : Z) :
  counter_get (Counter chunk) b = count_of b chunk.
Proof.
  unfold counter_get, count_of. induction chunk as [|x chunk IH]; [done|].
  simpl. rewrite filter_cons. destruct (decide (x = b)) as [->|Hne].
  - rewrite lookup_insert_eq. simpl. unfold counter_get in IH. lia.
  - by rewrite lookup_insert_ne.
Qed.

Lemma occurrences_from (cbytes : gmap Z Z) (b_range : list Z) (acc : Z) :
  foldl (λ occurrence b, occurrence + counter_get cbytes b) acc b_range
  = acc + foldr (λ b acc, counter_get cbytes b + acc) 0 b_range.
Proof.
  revert acc. induction b_range as [|b b_range IH]; intros acc; simpl; [lia|].
  rewrite IH. lia.
Qed.

Lemma occurrences_Counter (b_range chunk : list Z) :
  occurrences (Counter chunk) b_range = listed_occurrences b_range chunk.
Proof.
  unfold occurrences, listed_occurrences. rewrite occurrences_from, Z.add_0_l.
  induction b_range as [|b b_range IH]; [done|]. simpl.
  by rewrite IH, counter_get_Counter.
Qed.

Lemma count_of_nonneg (b : Z) (chunk : list Z) : 0 ≤ count_of b chunk.
Proof. unfold count_of. lia. Qed.

Lemma count_of_cons (b x : Z) (chunk : list Z) :
  count_of b (x :: chunk) = (if decide (x = b) then 1 else 0) + count_of b chunk.
Proof.
  unfold count_of. rewrite filter_cons. destruct (decide (x = b)); simpl; lia.
Qed.

Lemma listed_occurrences_nil (b_range : list Z) : listed_occurrences b_range [] = 0.
Proof. induction b_range as [|b b_range IH]; [done|]. simpl. by rewrite IH. Qed.

Lemma listed_occurrences_cons (b_range : list Z) (x : Z) (chunk : list Z) :
  listed_occurrences b_range (x :: chunk)
  = listed_occurrences b_range [x] + listed_occurrences b_range chunk.
Proof.
  induction b_range as [|b b_range IH]; [done|]. simpl.
  rewrite IH, (count_of_cons b x chunk), (count_of_cons b x []).
  unfold count_of at 2. simpl. lia.
Qed.

(** Among values listed once, a byte is counted once if it is listed and
    not at all otherwise. *)
Lemma listed_occurrences_single (b_range : list Z) (x : Z) :
  NoDup b_range →
  listed_occurrences b_range [x] = if decide (x ∈ b_range) then 1 else 0.
Proof.
  induction 1 as [|b b_range Hnotin _ IH]; [done|].
  simpl. rewrite IH, count_of_cons. unfold count_of. simpl.
  destruct (decide (x = b)) as [->|Hne].
  - rewrite decide_False by done. rewrite decide_True by apply list_elem_of_here. lia.
  - destruct (decide (x ∈ b_range)) as [Hin|Hnin].
    + rewrite decide_True by (by apply list_elem_of_further). lia.
    + rewrite decide_False; [lia|]. by intros [?|?]%elem_of_cons.
Qed.

Lemma listed_occurrences_NoDup (b_range chunk : list Z) :
  NoDup b_range → listed_occurrences b_range chunk = matching b_range chunk.
Proof.
  intros Hnd. induction chunk as [|x chunk IH].
  - by rewrite listed_occurrences_nil.
  - rewrite listed_occurrences_cons, IH, listed_occurrences_single by done.
    unfold matching. rewrite filter_cons.
    destruct (decide (x ∈ b_range)); simpl length; lia.
Qed.

Lemma count_of_absent (b : Z) (chunk : list Z) : b ∉ chunk → count_of b chunk = 0.
Proof.
  induction chunk as [|x chunk IH]; [done|].
  intros [Hne Hnin]%not_elem_of_cons. rewrite count_of_cons, IH by done.
  by rewrite decide_False.
Qed.

Lemma matching_zero (b_range chunk : list Z) (x : Z) :
  matching b_range chunk = 0 → x ∈ chunk → x ∉ b_range.
Proof.
  unfold matching. intros Hm Hx Hin.
  assert (x ∈ filter (λ x, x ∈ b_range) chunk) as Hf
    by (by apply list_elem_of_filter).
  destruct (filter (λ x, x ∈ b_range) chunk); [by apply not_elem_of_nil in Hf|].
  simpl in Hm. lia.
Qed.

Lemma listed_occurrences_no_match (b_range chunk : list Z) :
  matching b_range chunk = 0 → listed_occurrences b_range chunk = 0.
Proof.
  intros Hm. assert (Forall (λ b, b ∉ chunk) b_range) as Habsent.
  { apply Forall_forall. intros b Hb Hin. by apply (matching_zero _ _ b Hm). }
  clear Hm. induction Habsent as [|b b_range Hb _ IH]; [done|].
  change (listed_occurrences (b :: b_range) chunk)
    with (count_of b chunk + listed_occurrences b_range chunk).
  by rewrite IH, count_of_absent.
Qed.

(** ** The sampling loop *)

Lemma percentage_nonempty (occurrence : Z) (chunk : list Z) :
  chunk ≠ [] → percentage occurrence chunk = inr (percent_of occurrence chunk).
Proof.
  intros Hne. unfold percentage, truediv. rewrite inject_Z_nonzero; [done|].
  destruct chunk; [done | simpl; lia].
Qed.

Lemma track_group_ok (chunk : list Z) (label : string) (b_range : list Z)
    (byte_ranges : gmap string (list Q)) (series : list Q) (l : list log_record) :
  chunk ≠ [] → byte_ranges !! label = Some series →
  track_group chunk (Counter chunk) (label, b_range) byte_ranges l
  = (inr (<[label := series ++ [group_percentage b_range chunk]]> byte_ranges), l).
Proof.
  intros Hne Hlabel. unfold track_group, mbind, py_bind, lift.
  rewrite percentage_nonempty by done. by rewrite Hlabel.
Qed.

Lemma for_each_track_group (chunk : list Z) (items : list (string * list Z))
    (byte_ranges : gmap string (list Q)) (l : list log_record) :
  chunk ≠ [] → NoDup items.*1 →
  (∀ k v, (k, v) ∈ items → is_Some (byte_ranges !! k)) →
  ∃ byte_ranges',
    for_each items (track_group chunk (Counter chunk)) byte_ranges l = (inr byte_ranges', l) ∧
    (∀ k v, (k, v) ∈ items →
       byte_ranges' !! k = (λ s, s ++ [group_percentage v chunk]) <$> byte_ranges !! k) ∧
    (∀ k, k ∉ items.*1 → byte_ranges' !! k = byte_ranges !! k).
Proof.
  intros Hne. revert byte_ranges.
  induction items as [|[k0 v0] items IH]; intros byte_ranges Hnd Hkeys.
  - exists byte_ranges. split; [done|]. split; [|done].
    intros k v Hin. by apply not_elem_of_nil in Hin.
  - apply NoDup_cons in Hnd as [Hk0 Hnd].
    destruct (Hkeys k0 v0) as [s0 Hs0]; [apply list_elem_of_here|].
    destruct (IH (<[k0 := s0 ++ [group_percentage v0 chunk]]> byte_ranges) Hnd)
      as (byte_ranges' & Hrun & Hin & Hout).
    { intros k v Hkv. destruct (decide (k = k0)) as [->|Hne0].
      - rewrite lookup_insert_eq. by eexists.
      - rewrite lookup_insert_ne by done. apply (Hkeys k v). by apply list_elem_of_further. }
    exists byte_ranges'. split; [|split].
    + cbn [for_each]. unfold mbind, py_bind at 1.
      by rewrite (track_group_ok chunk k0 v0 byte_ranges s0 l Hne Hs0).
    + intros k v [Heq | Hkv]%elem_of_cons.
      * inversion Heq; subst k v. rewrite (Hout k0 Hk0), lookup_insert_eq.
        by rewrite Hs0.
      * rewrite (Hin k v Hkv). rewrite lookup_insert_ne; [done|].
        intros ->. apply Hk0. apply list_elem_of_fmap. by exists (k, v).
    + intros k Hk. apply not_elem_of_cons in Hk as [Hk1 Hk2]. simpl in Hk1.
      rewrite (Hout k Hk2). by rewrite lookup_insert_ne.
Qed.

Section Sampling.
Context `{Env}.

(** The entropy appended for a chunk is [shannon_ent] of that chunk,
    whatever the entropy of the previous chunk was. *)
Lemma sample_chunk_entropy (ibytes : gmap string (list Z)) (chunk : list Z)
    (st st' : loop_state) (l l' : list log_record) :
  sample_chunk ibytes chunk st l = (inr st', l') →
  st_shannon_samples st' = st_shannon_samples st ++ [shannon_ent chunk] ∧
  st_prev_ent st' = shannon_ent chunk.
Proof.
  unfold sample_chunk, mbind, py_bind, mret, py_ret. intros Hrun.
  destruct (Z.of_nat (size ibytes) >? 0).
  - destruct (for_each _ _ _ l) as [[e|br] l'']; [done|]. by inversion Hrun.
  - by inversion Hrun.
Qed.

Lemma sample_chunk_ok (ibytes : gmap string (list Z)) (chunk : list Z)
    (st : loop_state) (l : list log_record) :
  chunk ≠ [] →
  (∀ k, is_Some (ibytes !! k) → is_Some (st_byte_ranges st !! k)) →
  ∃ st',
    sample_chunk ibytes chunk st l = (inr st', l) ∧
    (∀ k v, ibytes !! k = Some v →
       st_byte_ranges st' !! k
       = (λ s, s ++ [group_percentage v chunk]) <$> st_byte_ranges st !! k) ∧
    (∀ k, ibytes !! k = None → st_byte_ranges st' !! k = st_byte_ranges st !! k).
Proof.
  intros Hne Hkeys. unfold sample_chunk, mbind, py_bind at 1, mret, py_ret.
  destruct (Z.of_nat (size ibytes) >? 0) eqn:Hsize.
  - destruct (for_each_track_group chunk (map_to_list ibytes) (st_byte_ranges st) l)
      as (byte_ranges' & -> & Hin & Hout); [done | apply NoDup_fst_map_to_list | |].
    { intros k v Hkv%elem_of_map_to_list. apply Hkeys. by eexists. }
    eexists. split; [done|]. simpl. split.
    + intros k v Hkv. apply Hin. by apply elem_of_map_to_list.
    + intros k Hk. apply Hout. intros [[k' v] [-> Hkv]]%list_elem_of_fmap.
      apply elem_of_map_to_list in Hkv. simpl in Hk. congruence.
  - eexists. split; [done|]. simpl. split; [|done].
    intros k v Hkv. assert (ibytes = ∅) as ->.
    { apply map_size_empty_iff. destruct (Z.gtb_spec (Z.of_nat (size ibytes)) 0); [done | lia]. }
    by rewrite lookup_empty in Hkv.
Qed.

Lemma sample_chunks_ok (ibytes : gmap string (list Z)) (chunks_read : list (list Z))
    (st : loop_state) (l : list log_record) :
  Forall (λ c, c ≠ []) chunks_read →
  (∀ k, is_Some (ibytes !! k) → is_Some (st_byte_ranges st !! k)) →
  ∃ st',
    for_each chunks_read (sample_chunk ibytes) st l = (inr st', l) ∧
    (∀ k v, ibytes !! k = Some v →
       st_byte_ranges st' !! k
       = (λ s, s ++ ((group_percentage v) <$> chunks_read)) <$> st_byte_ranges st !! k) ∧
    (∀ k, ibytes !! k = None → st_byte_ranges st' !! k = st_byte_ranges st !! k).
Proof.
  intros Hne. revert st. induction Hne as [|chunk chunks_read Hchunk _ IH]; intros st Hkeys.
  - exists st. split; [done|]. split; [|done]. intros k v Hkv.
    destruct (Hkeys k) as [s Hs]; [by eexists|]. rewrite Hs. simpl. by rewrite app_nil_r.
  - destruct (sample_chunk_ok ibytes chunk st l Hchunk Hkeys) as (st1 & Hrun1 & Hin1 & Hout1).
    destruct (IH st1) as (st' & Hrun & Hin & Hout).
    { intros k [v Hkv]. rewrite (Hin1 k v Hkv). destruct (Hkeys k) as [s Hs]; [by eexists|].
      rewrite Hs. by eexists. }
    exists st'. split; [|split].
    + cbn [for_each]. unfold mbind, py_bind at 1. by rewrite Hrun1.
    + intros k v Hkv. rewrite (Hin k v Hkv), (Hin1 k v Hkv).
      destruct (st_byte_ranges st !! k); [|done]. simpl. by rewrite <- app_assoc.
    + intros k Hk. by rewrite (Hout k Hk), (Hout1 k Hk).
Qed.

Lemma sample_chunks_entropy (ibytes : gmap string (list Z)) (chunks_read : list (list Z))
    (st st' : loop_state) (l l' : list log_record) :
  for_each chunks_read (sample_chunk ibytes) st l = (inr st', l') →
  st_shannon_samples st' = st_shannon_samples st ++ (shannon_ent <$> chunks_read).
Proof.
  revert st l. induction chunks_read as [|chunk chunks_read IH]; intros st l Hrun.
  - inversion Hrun. by rewrite app_nil_r.
  - cbn [for_each] in Hrun. unfold mbind, py_bind at 1 in Hrun.
    destruct (sample_chunk ibytes chunk st l) as [[e|st1] l1] eqn:Hrun1; [done|].
    apply sample_chunk_entropy in Hrun1 as [Hs1 _].
    rewrite (IH _ _ Hrun), Hs1. simpl. by rewrite <- app_assoc.
Qed.
End Sampling.

(** ** The sampling pass *)

Lemma chunk_sizes_positive (fs n chunksize : Z) (nr_chunksize : Q) :
  0 ≤ fs → 1 ≤ n → chunk_sizes fs n = inr (chunksize, nr_chunksize) → 1 ≤ chunksize.
Proof.
  intros Hfs Hn Hcs. destruct (Z_lt_le_dec fs n) as [Hlt | Hle].
  - rewrite chunk_sizes_small in Hcs by lia. inversion Hcs. lia.
  - rewrite chunk_sizes_large in Hcs by lia. inversion Hcs.
    pose proof (neg_floordiv_is_ceil fs n ltac:(lia)) as Hceil.
    unfold is_ceil in Hceil. nia.
Qed.

Section SamplingPass.
Context `{Env}.

Lemma sample_file_ok (abs_fpath fname : string) (n : Z) (ibytes : gmap string (list Z))
    (data : list byte) (chunksize : Z) (nr_chunksize : Q) (l : list log_record) :
  open_rb abs_fpath = Some data →
  chunk_sizes (Z.of_nat (length data)) n = inr (chunksize, nr_chunksize) →
  -1 ≤ chunksize →
  ∃ chunks_read byte_ranges,
    get_chunk (open_handle data) chunksize = Some (inr chunks_read) ∧
    chunked chunksize data chunks_read ∧
    sample_file abs_fpath fname n ibytes l
    = (inr {| s_chunksize := chunksize;
              s_nr_chunksize := nr_chunksize;
              s_shannon_samples := shannon_ent <$> chunks_read;
              s_byte_ranges := byte_ranges |},
       l ++ [(DEBUG, MsgOpening fname);
             (DEBUG, MsgSizes (Z.of_nat (length data)) chunksize nr_chunksize n);
             (DEBUG, MsgIteration chunksize)]) ∧
    (∀ label b_range, ibytes !! label = Some b_range →
       byte_ranges !! label = Some (group_percentage b_range <$> chunks_read)).
Proof.
  intros Hopen Hsizes Hvalid.
  destruct (get_chunk_total data chunksize Hvalid) as (chunks_read & Hget & Hchunked).
  set (byte_ranges0 := if Z.of_nat (size ibytes) >? 0
                       then (λ _ : list Z, @nil Q) <$> ibytes else ∅).
  assert (∀ k v, ibytes !! k = Some v → byte_ranges0 !! k = Some []) as Hinit.
  { intros k v Hkv. unfold byte_ranges0.
    destruct (Z.gtb_spec (Z.of_nat (size ibytes)) 0) as [_|Hsize].
    - by rewrite lookup_fmap, Hkv.
    - assert (ibytes = ∅) as -> by (apply map_size_empty_iff; lia).
      by rewrite lookup_empty in Hkv. }
  set (l3 := l ++ [(DEBUG, MsgOpening fname);
             (DEBUG, MsgSizes (Z.of_nat (length data)) chunksize nr_chunksize n);
             (DEBUG, MsgIteration chunksize)]).
  destruct (sample_chunks_ok ibytes chunks_read
              {| st_shannon_samples := []; st_prev_ent := 0; st_byte_ranges := byte_ranges0 |}
              l3)
    as (st' & Hrun & Hin & _).
  { by apply (chunked_nonempty chunksize data). }
  { intros k [v Hkv]. simpl. rewrite (Hinit k v Hkv). by eexists. }
  pose proof (sample_chunks_entropy _ _ _ _ _ _ Hrun) as Hent. simpl in Hent.
  exists chunks_read, (st_byte_ranges st'). split; [done|]. split; [done|]. split.
  - unfold sample_file. rewrite Hopen. unfold mbind, py_bind, lift, log.
    rewrite Hsizes, Hget. fold byte_ranges0.
    rewrite <- !app_assoc. simpl. unfold l3 in *.
    rewrite Hrun. unfold mret, py_ret. by rewrite Hent.
  - intros label b_range Hlabel. rewrite (Hin label b_range Hlabel). simpl.
    by rewrite (Hinit label b_range Hlabel).
Qed.
End SamplingPass.

(** C2.  For every file and every requested chunk count [n >= 1] the
    sampling pass succeeds, and the entropy series, as well as the
    percentage series of every group, has exactly [ceil(fs / chunksize)]
    entries, [chunksize] being the rounded chunk size; when [n > fs] the
    chunk size is 1 and there is one entry per byte. *)
Theorem series_length `{Env} (abs_fpath fname : string) (n : Z)
    (ibytes : gmap string (list Z)) (data : list byte) (l : list log_record) :
  open_rb abs_fpath = Some data → 1 ≤ n →
  let fs := Z.of_nat (length data) in
  ∃ s l',
    sample_file abs_fpath fname n ibytes l = (inr s, l') ∧
    chunk_sizes fs n = inr (s_chunksize s, s_nr_chunksize s) ∧
    1 ≤ s_chunksize s ∧
    is_ceil fs (s_chunksize s) (Z.of_nat (length (s_shannon_samples s))) ∧
    (∀ label b_range, ibytes !! label = Some b_range →
       ∃ series, s_byte_ranges s !! label = Some series ∧
                 length series = length (s_shannon_samples s)) ∧
    (n > fs → s_chunksize s = 1 ∧ Z.of_nat (length (s_shannon_samples s)) = fs).
Proof.
  intros Hopen Hn fs.
  destruct (chunk_sizes_defined fs n ltac:(lia) Hn) as (chunksize & nr & Hsizes).
  pose proof (chunk_sizes_positive fs n chunksize nr ltac:(lia) Hn Hsizes) as Hpos.
  destruct (sample_file_ok abs_fpath fname n ibytes data chunksize nr l Hopen Hsizes
              ltac:(lia))
    as (chunks_read & byte_ranges & _ & Hchunked & Hrun & Hseries).
  pose proof (chunked_count chunksize data chunks_read Hpos Hchunked) as Hcount.
  eexists _, _. split; [exact Hrun|]. simpl. rewrite length_fmap.
  split; [done|]. split; [done|]. split; [done|]. split.
  - intros label b_range Hlabel. eexists. split; [by apply (Hseries label b_range)|].
    by rewrite !length_fmap.
  - intros Hgt. rewrite chunk_sizes_small in Hsizes by done.
    inversion Hsizes; subst. unfold is_ceil in Hcount. split; lia.
Qed.

Lemma series_length_witness :
  ∃ s l',
    sample_file (H := example_env) "/tmp/tiny.bin" "tiny.bin" 750 __ibytes_dict__ [] = (inr s, l') ∧
    chunk_sizes 3 750 = inr (s_chunksize s, s_nr_chunksize s) ∧
    1 ≤ s_chunksize s ∧
    is_ceil 3 (s_chunksize s) (Z.of_nat (length (s_shannon_samples s))) ∧
    (∀ label b_range, __ibytes_dict__ !! label = Some b_range →
       ∃ series, s_byte_ranges s !! label = Some series ∧
                 length series = length (s_shannon_samples s)) ∧
    (750 > 3 → s_chunksize s = 1 ∧ Z.of_nat (length (s_shannon_samples s)) = 3).
Proof.
  apply (series_length (H := example_env) "/tmp/tiny.bin" "tiny.bin" 750
           __ibytes_dict__ [x4d; x5a; x00] []); [reflexivity | lia].
Defined.

(** C9.  On every file, for every chunk size that is not negative (as
    every size configured for a chunk count [n >= 1] is,
    [chunk_sizes_positive]) and fits the size argument of [read],
    [get_chunk] terminates without raising and yields only non-empty
    chunks, none longer than the chunk size, and all but the last one of
    exactly that length. *)
Theorem get_chunk_chunks (data : list byte) (chunksize : Z) :
  0 ≤ chunksize → fits_ssize_t chunksize →
  ∃ chunks_read,
    get_chunk (open_handle data) chunksize = Some (inr chunks_read) ∧
    Forall (λ c, c ≠ []) chunks_read ∧
    Forall (λ c, Z.of_nat (length c) ≤ chunksize) chunks_read ∧
    ∀ (i : nat) c, chunks_read !! i = Some c → (S i < length chunks_read)%nat →
      Z.of_nat (length c) = chunksize.
Proof.
  intros Hsize _.
  destruct (get_chunk_total data chunksize ltac:(lia)) as (chunks_read & Hget & Hchunked).
  exists chunks_read. split; [done|]. split; [by apply (chunked_nonempty chunksize data)|].
  split.
  - by apply (chunked_length_le chunksize data).
  - by apply (chunked_full chunksize data).
Qed.

Lemma get_chunk_chunks_witness :
  ∃ chunks_read,
    get_chunk (open_handle [x4d; x5a; x00; x01; x02]) 2 = Some (inr chunks_read) ∧
    Forall (λ c, c ≠ []) chunks_read ∧
    Forall (λ c, Z.of_nat (length c) ≤ 2) chunks_read ∧
    ∀ (i : nat) c, chunks_read !! i = Some c → (S i < length chunks_read)%nat →
      Z.of_nat (length c) = 2.
Proof.
  apply (get_chunk_chunks [x4d; x5a; x00; x01; x02] 2); [lia|].
  unfold fits_ssize_t. simpl. lia.
Defined.

(** ** Percentages *)

Lemma percent_of_zero (chunk : list Z) : (percent_of 0 chunk == 0)%Q.
Proof. unfold percent_of, Qdiv. by rewrite !Qmult_0_l. Qed.

(** C3, as stated, at the one-byte chunk [[0]] and a group that lists the
    value 0 twice: one byte of the chunk (that is, 100 percent) has its
    value in the group, and the value appended to the series is 200. *)
Lemma group_percentage_repeated_counterexample :
  ∃ st' pc,
    sample_chunk (H := example_env) {["g"%string := [0; 0]]} [0]
      {| st_shannon_samples := []; st_prev_ent := 0;
         st_byte_ranges := {["g"%string := []]} |} []
    = (inr st', []) ∧
    st_byte_ranges st' !! "g"%string = Some [pc] ∧
    (pc == 200)%Q ∧
    ¬ Qeq pc (percent_of (matching [0; 0] [0]) [0]).
Proof.
  destruct (sample_chunk_ok (H := example_env) {["g"%string := [0; 0]]} [0]
              {| st_shannon_samples := []; st_prev_ent := 0;
                 st_byte_ranges := {["g"%string := []]} |} [])
    as (st' & Hrun & Hin & _); [done | |].
  { intros k [v [-> _]%lookup_singleton_Some]. simpl.
    rewrite lookup_singleton_eq. by eexists. }
  exists st', (group_percentage [0; 0] [0]). split; [exact Hrun|]. split.
  - rewrite (Hin "g"%string [0; 0]) by apply lookup_singleton_eq.
    simpl. by rewrite lookup_singleton_eq.
  - split; [reflexivity|]. intros Heq. vm_compute in Heq. discriminate.
Qed.

(** C3 (amended).  For every non-empty chunk and every group of the
    interesting-byte spec, the loop body succeeds and appends to the
    group's series the sum, over the entries of the group's list, of the
    number of bytes of the chunk with that value, divided by the length of
    the chunk and multiplied by 100.  When no value is listed twice this
    is the number of bytes of the chunk whose value is in the group,
    divided by the length and multiplied by 100; a group without a
    matching byte yields 0. *)
Theorem group_percentage_appended `{Env} (ibytes : gmap string (list Z))
    (chunk : list Z) (st : loop_state) (l : list log_record)
    (label : string) (b_range : list Z) (series : list Q) :
  chunk ≠ [] →
  ibytes !! label = Some b_range →
  (∀ k, is_Some (ibytes !! k) → is_Some (st_byte_ranges st !! k)) →
  st_byte_ranges st !! label = Some series →
  ∃ st',
    sample_chunk ibytes chunk st l = (inr st', l) ∧
    st_byte_ranges st' !! label = Some (series ++ [group_percentage b_range chunk]) ∧
    group_percentage b_range chunk = percent_of (listed_occurrences b_range chunk) chunk ∧
    (NoDup b_range →
       group_percentage b_range chunk = percent_of (matching b_range chunk) chunk) ∧
    (matching b_range chunk = 0 → (group_percentage b_range chunk == 0)%Q).
Proof.
  intros Hne Hlabel Hkeys Hseries.
  destruct (sample_chunk_ok ibytes chunk st l Hne Hkeys) as (st' & Hrun & Hin & _).
  exists st'. split; [exact Hrun|]. split.
  { rewrite (Hin label b_range Hlabel). by rewrite Hseries. }
  unfold group_percentage. rewrite occurrences_Counter. split; [done|]. split.
  - intros Hnd. by rewrite listed_occurrences_NoDup.
  - intros Hzero. rewrite listed_occurrences_no_match by done. apply percent_of_zero.
Qed.

Lemma group_percentage_appended_witness :
  ∃ st',
    sample_chunk (H := example_env) {["g"%string := [0; 65]]} [0; 0; 65; 7]
      {| st_shannon_samples := []; st_prev_ent := 0;
         st_byte_ranges := {["g"%string := []]} |} []
    = (inr st', []) ∧
    st_byte_ranges st' !! "g"%string
    = Some ([] ++ [group_percentage [0; 65] [0; 0; 65; 7]]) ∧
    group_percentage [0; 65] [0; 0; 65; 7]
    = percent_of (listed_occurrences [0; 65] [0; 0; 65; 7]) [0; 0; 65; 7] ∧
    group_percentage [0; 65] [0; 0; 65; 7]
    = percent_of (matching [0; 65] [0; 0; 65; 7]) [0; 0; 65; 7].
Proof.
  destruct (group_percentage_appended (H := example_env) {["g"%string := [0; 65]]}
              [0; 0; 65; 7]
              {| st_shannon_samples := []; st_prev_ent := 0;
                 st_byte_ranges := {["g"%string := []]} |} []
              "g"%string [0; 65] [])
    as (st' & Hrun & Hlook & Hsum & Hset & _).
  - done.
  - apply lookup_singleton_eq.
  - intros k [v [-> _]%lookup_singleton_Some]. simpl.
    rewrite lookup_singleton_eq. by eexists.
  - apply lookup_singleton_eq.
  - exists st'. split; [exact Hrun|]. split; [exact Hlook|]. split; [exact Hsum|].
    apply Hset. apply NoDup_cons. split; [|apply NoDup_singleton].
    by intros ?%list_elem_of_singleton.
Defined.

(** ** The entropy series *)

(** C10.  For every sequence of chunks, if the loop completes then the
    samples it has appended are [shannon_ent] of each chunk, in order:
    the median taken with the previous entropy is overwritten before the
    sample is appended.  On non-empty chunks, which are all [get_chunk]
    yields, the loop does complete. *)
Theorem entropy_series_pointwise `{Env} (ibytes : gmap string (list Z))
    (chunks_read : list (list Z)) (st : loop_state) (l : list log_record) :
  (∀ st' l', for_each chunks_read (sample_chunk ibytes) st l = (inr st', l') →
     st_shannon_samples st' = st_shannon_samples st ++ (shannon_ent <$> chunks_read)) ∧
  (Forall (λ c, c ≠ []) chunks_read →
   (∀ k, is_Some (ibytes !! k) → is_Some (st_byte_ranges st !! k)) →
   ∃ st', for_each chunks_read (sample_chunk ibytes) st l = (inr st', l) ∧
     st_shannon_samples st' = st_shannon_samples st ++ (shannon_ent <$> chunks_read)).
Proof.
  split.
  - intros st' l'. apply sample_chunks_entropy.
  - intros Hne Hkeys.
    destruct (sample_chunks_ok ibytes chunks_read st l Hne Hkeys) as (st' & Hrun & _).
    exists st'. split; [exact Hrun|]. by apply (sample_chunks_entropy _ _ _ _ _ _ Hrun).
Qed.

Lemma entropy_series_pointwise_witness :
  ∃ st',
    for_each [[0; 0]; [65; 66]; [7]] (sample_chunk (H := example_env) ∅)
      {| st_shannon_samples := []; st_prev_ent := 0; st_byte_ranges := ∅ |} []
    = (inr st', []) ∧
    st_shannon_samples st' = [] ++ (example_ent <$> [[0; 0]; [65; 66]; [7]]).
Proof.
  apply (entropy_series_pointwise (H := example_env) ∅ [[0; 0]; [65; 66]; [7]]
           {| st_shannon_samples := []; st_prev_ent := 0; st_byte_ranges := ∅ |} []).
  - by repeat constructor.
  - intros k [v Hv]. by rewrite lookup_empty in Hv.
Defined.

(** ** Section names *)

(** A section that has a name keeps it. *)
Lemma safe_section_name_named (c : ascii) (s : string) (index : Z) :
  safe_section_name (Some (String c s)) index = inr (String c s).
Proof. reflexivity. Qed.

(** The format code [d] applied to the index itself would give the label
    of the specification. *)
Lemma format_d_index : format_d (PInt 2) = inr "2"%string.
Proof. reflexivity. Qed.

(** C4 (defect of the code).  For a section whose name is empty or
    absent, [safe_section_name] does not return the label ["sect_<index>"]:
    it passes [str(index)] to the format code [d], which raises
    ValueError, at every index. *)
Theorem safe_section_name_unnamed_raises (index : Z) :
  safe_section_name (Some EmptyString) index = inl ValueError ∧
  safe_section_name None index = inl ValueError.
Proof. split; reflexivity. Qed.

(** The scenario of the specification: an empty name at index 2. *)
Example safe_section_name_index_2 : safe_section_name (Some EmptyString) 2 = inl ValueError.
Proof. reflexivity. Qed.

(** ** Offsets and chunk coordinates *)

Lemma truediv_nonzero (a b : Q) : ¬ (b == 0)%Q → truediv a b = inr (a / b)%Q.
Proof.
  intros Hb. unfold truediv. destruct (Qeq_bool b 0) eqn:E; [|done].
  by apply Qeq_bool_iff in E.
Qed.

Lemma py_int_integer (q : Q) (z : Z) : (q == inject_Z z)%Q → py_int q = z.
Proof.
  unfold Qeq, py_int. simpl. intros Hq.
  assert (Qnum q = z * Z.pos (Qden q)) as -> by lia.
  apply Z.quot_mul. lia.
Qed.

(** C8.  The two conversions are functions of their argument and of the
    scale alone, [chunk_index_of] dividing by the scale and [offset_of]
    multiplying by it; for every offset and every scale that is not zero,
    converting the offset to a chunk coordinate and back gives the offset
    again, also after the truncation applied for the tick labels. *)
Theorem offset_roundtrip (nr_chunksize : Q) (offset : Z) :
  ¬ (nr_chunksize == 0)%Q →
  ∃ x,
    chunk_index_of nr_chunksize offset = inr x ∧
    x = (inject_Z offset / nr_chunksize)%Q ∧
    (∀ y, offset_of nr_chunksize y = (y * nr_chunksize)%Q) ∧
    (offset_of nr_chunksize x == inject_Z offset)%Q ∧
    tick_offset nr_chunksize x = offset.
Proof.
  intros Hnz. exists (inject_Z offset / nr_chunksize)%Q.
  assert (offset_of nr_chunksize (inject_Z offset / nr_chunksize) == inject_Z offset)%Q
    as Hback by (unfold offset_of; by field).
  split; [by apply truediv_nonzero|]. split; [done|]. split; [done|].
  split; [exact Hback|]. by apply py_int_integer.
Qed.

Lemma offset_roundtrip_witness :
  ∃ x,
    chunk_index_of (10 # 3) 4096 = inr x ∧
    x = (inject_Z 4096 / (10 # 3))%Q ∧
    (∀ y, offset_of (10 # 3) y = (y * (10 # 3))%Q) ∧
    (offset_of (10 # 3) x == inject_Z 4096)%Q ∧
    tick_offset (10 # 3) x = 4096.
Proof. apply (offset_roundtrip (10 # 3) 4096). by intros H. Defined.

(** ** Validation of [--ibytes] *)

Lemma check_items_ok (name : string) (bs : list json) (l : list log_record) :
  Forall (λ b, ∃ z, b = JInt z) bs →
  for_each bs (λ b _, check_item name b) tt l = (inr tt, l).
Proof.
  induction 1 as [|b bs [z ->] _ IH]; [done|].
  cbn [for_each]. unfold mbind, py_bind at 1. by simpl.
Qed.

Lemma check_items_inv (name : string) (bs : list json) (l l' : list log_record) (u : unit) :
  for_each bs (λ b _, check_item name b) tt l = (inr u, l') →
  Forall (λ b, ∃ z, b = JInt z) bs.
Proof.
  revert l. induction bs as [|b bs IH]; intros l Hrun; [done|].
  cbn [for_each] in Hrun. unfold mbind, py_bind at 1, check_item in Hrun.
  destruct b; simpl in Hrun; try done.
  constructor; [by eexists | by apply (IH l)].
Qed.

(** The first element that is not an integer is the one reported. *)
Lemma check_items_not_int (name : string) (pre post : list json) (b : json)
    (l : list log_record) :
  Forall (λ b, ∃ z, b = JInt z) pre → is_int b = false →
  for_each (pre ++ b :: post) (λ b _, check_item name b) tt l
  = (inl (ArgValidationEx (ErrNotInt name b)), l).
Proof.
  intros Hpre Hb. induction Hpre as [|b0 pre [z ->] _ IH].
  - cbn [app for_each]. unfold mbind, py_bind at 1, check_item. by rewrite Hb.
  - cbn [app for_each]. unfold mbind, py_bind at 1. by simpl.
Qed.

Lemma check_group_ok (name : string) (v : json) (l : list log_record) :
  int_list v → check_group name v l = (inr tt, l).
Proof.
  intros (bs & -> & Hne & Hints). unfold check_group, mbind, py_bind at 1, lift.
  simpl. destruct bs as [|b bs]; [done|]. by apply check_items_ok.
Qed.

Lemma check_group_inv (name : string) (v : json) (l l' : list log_record) (u : unit) :
  check_group name v l = (inr u, l') → int_list v.
Proof.
  unfold check_group, mbind, py_bind, lift. simpl.
  destruct v as [| | | |s|bs|items]; simpl; try done.
  - destruct s as [|c s]; [done|]. cbn [negb]. simpl. unfold check_item. by simpl.
  - destruct bs as [|b bs]; [done|]. intros Hrun%check_items_inv.
    exists (b :: bs). by split.
  - destruct items as [|kv items]; [done|]. simpl. unfold check_item. by simpl.
Qed.

(** A group whose value has no [len] raises TypeError, not the
    validation error. *)
Lemma check_group_scalar (name : string) (v : json) (l : list log_record) :
  is_scalar v = true → check_group name v l = (inl TypeError, l).
Proof. by destruct v. Qed.

Lemma check_group_empty_list (name : string) (l : list log_record) :
  check_group name (JList []) l = (inl (ArgValidationEx (ErrNotList name (JList []))), l).
Proof. reflexivity. Qed.

Lemma check_group_not_int (name : string) (pre post : list json) (b : json)
    (l : list log_record) :
  Forall (λ b, ∃ z, b = JInt z) pre → is_int b = false →
  check_group name (JList (pre ++ b :: post)) l
  = (inl (ArgValidationEx (ErrNotInt name b)), l).
Proof.
  intros Hpre Hb. unfold check_group, mbind, py_bind at 1, lift. simpl.
  rewrite length_app. simpl.
  destruct (Z.gtb_spec (Z.of_nat (length pre + S (length post))) 0) as [_|Hle]; [|lia].
  simpl. by apply check_items_not_int.
Qed.

Lemma check_groups_ok (items : list (string * json)) (l : list log_record) :
  Forall (λ kv : string * json, int_list kv.2) items →
  for_each items (λ kv _, check_group kv.1 kv.2) tt l = (inr tt, l).
Proof.
  induction 1 as [|[name v] items Hv _ IH]; [done|].
  cbn [for_each]. unfold mbind, py_bind at 1. by rewrite check_group_ok.
Qed.

Lemma check_groups_inv (items : list (string * json)) (l l' : list log_record) (u : unit) :
  for_each items (λ kv _, check_group kv.1 kv.2) tt l = (inr u, l') →
  Forall (λ kv : string * json, int_list kv.2) items.
Proof.
  revert l. induction items as [|[name v] items IH]; intros l Hrun; [done|].
  cbn [for_each] in Hrun. unfold mbind, py_bind at 1 in Hrun. cbn [fst snd] in Hrun.
  destruct (check_group name v l) as [[e|[]] l1] eqn:Hgroup; [done|].
  constructor; [by apply (check_group_inv name v l l1 tt) | by apply (IH l1)].
Qed.

(** The first group that fails decides the outcome. *)
Lemma check_groups_first_failure (pre post : list (string * json)) (name : string)
    (v : json) (e : exn) (l : list log_record) :
  Forall (λ kv : string * json, int_list kv.2) pre →
  check_group name v l = (inl e, l) →
  for_each (pre ++ (name, v) :: post) (λ kv _, check_group kv.1 kv.2) tt l = (inl e, l).
Proof.
  intros Hpre Hv. induction Hpre as [|[name0 v0] pre Hv0 _ IH].
  - cbn [app for_each]. unfold mbind, py_bind at 1. simpl. by rewrite Hv.
  - cbn [app for_each]. unfold mbind, py_bind at 1. simpl. by rewrite check_group_ok.
Qed.

Lemma check_ibytes_accepts (doc : json) (l : list log_record) :
  accepted_shape doc → check_ibytes doc l = (inr tt, l).
Proof.
  intros (items & -> & Hitems). unfold check_ibytes, mbind, py_bind at 1, lift. simpl.
  by apply check_groups_ok.
Qed.

Lemma check_ibytes_inv (doc : json) (l l' : list log_record) (u : unit) :
  check_ibytes doc l = (inr u, l') → accepted_shape doc.
Proof.
  unfold check_ibytes, mbind, py_bind at 1, lift. destruct doc; simpl; try done.
  intros Hrun%check_groups_inv. by eexists.
Qed.

Section Validation.
Context `{Env}.

(** [args_validation] on a text that [json.loads] decodes, outside the
    [all] graph type: the outcome is that of the checks on the decoded
    document. *)
Lemma args_validation_decoded (args : Args) (text : string) (doc : json)
    (l : list log_record) :
  graphtype args ≠ "all"%string → ibytes args = Some text → json_loads text = inr doc →
  args_validation args l
  = match check_ibytes doc (l ++ [backend_record]) with
    | (inl e, l') => (inl e, l')
    | (inr _, l') => (inr {| v_ibytes := doc; v_chunks := chunks args |}, l')
    end.
Proof.
  intros Hall%String.eqb_neq Htext Hdoc. unfold args_validation, backend_record.
  rewrite Hall, Htext, Hdoc. unfold mbind, py_bind, log.
  by destruct (negb (String.eqb get_backend "TkAgg")).
Qed.

(** X22.  A text that [json.loads] rejects raises the validation error
    that carries the parse error and the text. *)
Lemma args_validation_decode_error (args : Args) (text e : string)
    (l : list log_record) :
  graphtype args ≠ "all"%string → ibytes args = Some text → json_loads text = inl e →
  args_validation args l
  = (inl (ArgValidationEx (ErrDecoding e text)), l ++ [backend_record]).
Proof.
  intros Hall%String.eqb_neq Htext Hdoc. unfold args_validation, backend_record.
  rewrite Hall, Htext, Hdoc. unfold mbind, py_bind, log.
  by destruct (negb (String.eqb get_backend "TkAgg")).
Qed.

(** A group that is an empty list raises the validation error that names
    the group and its value, when the groups before it are well formed. *)
Lemma args_validation_empty_list (args : Args) (text name : string)
    (pre post : list (string * json)) (l : list log_record) :
  graphtype args ≠ "all"%string → ibytes args = Some text →
  json_loads text = inr (JDict (pre ++ (name, JList []) :: post)) →
  Forall (λ kv : string * json, int_list kv.2) pre →
  args_validation args l
  = (inl (ArgValidationEx (ErrNotList name (JList []))), l ++ [backend_record]).
Proof.
  intros Hall Htext Hdoc Hpre. rewrite (args_validation_decoded _ _ _ _ Hall Htext Hdoc).
  unfold check_ibytes, mbind, py_bind at 1, lift. simpl.
  by rewrite (check_groups_first_failure pre post name (JList []) _ _ Hpre
                (check_group_empty_list name _)).
Qed.

(** X23.  A list with an element that is not an integer (a boolean, a
    float, a string, null, a nested list, ...) raises the validation error
    that names the group and the first such element, when the groups
    before it are well formed. *)
Lemma args_validation_not_int (args : Args) (text name : string)
    (pre post : list (string * json)) (bs1 bs2 : list json) (b : json)
    (l : list log_record) :
  graphtype args ≠ "all"%string → ibytes args = Some text →
  json_loads text = inr (JDict (pre ++ (name, JList (bs1 ++ b :: bs2)) :: post)) →
  Forall (λ kv : string * json, int_list kv.2) pre →
  Forall (λ b, ∃ z, b = JInt z) bs1 → is_int b = false →
  args_validation args l
  = (inl (ArgValidationEx (ErrNotInt name b)), l ++ [backend_record]).
Proof.
  intros Hall Htext Hdoc Hpre Hbs1 Hb.
  rewrite (args_validation_decoded _ _ _ _ Hall Htext Hdoc).
  unfold check_ibytes, mbind, py_bind at 1, lift. simpl.
  by rewrite (check_groups_first_failure pre post name _ _ _ Hpre
                (check_group_not_int name bs1 bs2 b _ Hbs1 Hb)).
Qed.
End Validation.

(** C5, as stated, at the spec [{"g": [300]}]: validation returns
    normally and leaves the decoded document, with the value 300, on
    [args]. *)
Lemma out_of_range_accepted_counterexample :
  args_validation (H := example_env)
    {| graphtype := "ent"; ibytes := Some ("{" ++ dq ++ "g" ++ dq ++ ": [300]}")%string;
       chunks := 750 |} []
  = (inr {| v_ibytes := JDict [("g"%string, JList [JInt 300])]; v_chunks := 750 |},
     [(DEBUG, MsgBackend "TkAgg")]).
Proof. reflexivity. Qed.

(** The same for the value -1. *)
Example negative_value_accepted :
  args_validation (H := example_env)
    {| graphtype := "ent"; ibytes := Some ("{" ++ dq ++ "g" ++ dq ++ ": [-1]}")%string;
       chunks := 750 |} []
  = (inr {| v_ibytes := JDict [("g"%string, JList [JInt (-1)])]; v_chunks := 750 |},
     [(DEBUG, MsgBackend "TkAgg")]).
Proof. reflexivity. Qed.

(** C5 (amended).  Validation does not look at the magnitude of the
    values: a decoded spec is accepted exactly when it is an object each
    of whose values is a non-empty list of integers, whatever the
    integers are.  So for every accepted spec every byte value of every
    group is an integer, in [[0, 255]] or not. *)
Theorem validation_accepts_integer_lists `{Env} (args : Args) (text : string)
    (doc : json) (l : list log_record) :
  graphtype args ≠ "all"%string → ibytes args = Some text → json_loads text = inr doc →
  (∃ v l', args_validation args l = (inr v, l')) ↔ accepted_shape doc.
Proof.
  intros Hall Htext Hdoc. rewrite (args_validation_decoded _ _ _ _ Hall Htext Hdoc). split.
  - intros (v & l' & Hrun).
    destruct (check_ibytes doc (l ++ [backend_record])) as [[e|u] l1] eqn:Hcheck; [done|].
    exact (check_ibytes_inv doc _ l1 u Hcheck).
  - intros Hshape. rewrite check_ibytes_accepts by done. by eexists _, _.
Qed.

Lemma validation_accepts_integer_lists_witness :
  (∃ v l', args_validation (H := example_env)
             {| graphtype := "ent";
                ibytes := Some ("{" ++ dq ++ "g" ++ dq ++ ": [300]}")%string;
                chunks := 750 |} [] = (inr v, l'))
  ↔ accepted_shape (JDict [("g"%string, JList [JInt 300])]).
Proof.
  apply (validation_accepts_integer_lists (H := example_env)
           {| graphtype := "ent";
              ibytes := Some ("{" ++ dq ++ "g" ++ dq ++ ": [300]}")%string;
              chunks := 750 |}
           ("{" ++ dq ++ "g" ++ dq ++ ": [300]}")%string
           (JDict [("g"%string, JList [JInt 300])]) []);
    [discriminate | reflexivity | reflexivity].
Defined.

(** C6 (defect of the code).  When the value of a group is a number, a
    boolean or null, and the groups before it are well formed,
    [args_validation] does not raise the validation error that names the
    group and the value: the guard [not (type(name) == str or
    type(bytelist) == list)] is false for every key of a decoded object,
    so [len(bytelist)] is evaluated and raises TypeError. *)
Theorem validation_scalar_group_raises_TypeError `{Env} (args : Args) (text name : string)
    (pre post : list (string * json)) (v : json) (l : list log_record) :
  graphtype args ≠ "all"%string → ibytes args = Some text →
  json_loads text = inr (JDict (pre ++ (name, v) :: post)) →
  Forall (λ kv : string * json, int_list kv.2) pre →
  is_scalar v = true →
  args_validation args l = (inl TypeError, l ++ [backend_record]).
Proof.
  intros Hall Htext Hdoc Hpre Hv. rewrite (args_validation_decoded _ _ _ _ Hall Htext Hdoc).
  unfold check_ibytes, mbind, py_bind at 1, lift. simpl.
  by rewrite (check_groups_first_failure pre post name v _ _ Hpre
                (check_group_scalar name v _ Hv)).
Qed.

Lemma validation_scalar_group_raises_TypeError_witness :
  args_validation (H := example_env)
    {| graphtype := "ent"; ibytes := Some ("{" ++ dq ++ "g" ++ dq ++ ": 5}")%string;
       chunks := 750 |} []
  = (inl TypeError, [] ++ [backend_record (H := example_env)]).
Proof.
  apply (validation_scalar_group_raises_TypeError (H := example_env)
           {| graphtype := "ent"; ibytes := Some ("{" ++ dq ++ "g" ++ dq ++ ": 5}")%string;
              chunks := 750 |}
           ("{" ++ dq ++ "g" ++ dq ++ ": 5}")%string "g"%string [] [] (JInt 5) []);
    [discriminate | reflexivity | reflexivity | constructor | reflexivity].
Defined.

(** ** Format-aware mode *)

Section Annotations.
Context `{Env}.

(** A parse failure is logged as a warning and leaves no landmark. *)
Lemma annotate_parse_failure (abs_fpath e : string) (nr_chunksize : Q)
    (l : list log_record) :
  lief_parse abs_fpath = inl e →
  annotate abs_fpath false nr_chunksize l
  = (inr ([], 1), l ++ [(WARNING, MsgParseFailed e)]).
Proof. intros Hparse. unfold annotate, mbind, py_bind, log. by rewrite Hparse. Qed.

(** C7.  When the parser fails on the file, [generate] in format-aware
    mode ([blob] false) still returns the complete figure for every
    requested chunk count [n >= 1]: the chunk size and scale, the
    entropy series and the percentage series of the sampling pass, and
    an empty list of landmarks.  The failure is the last record of the
    log, at the warning level, and no exception is raised. *)
Theorem parse_failure_degrades (abs_fpath fname : string) (n : Z)
    (ibytes : gmap string (list Z)) (data : list byte) (e : string)
    (l : list log_record) :
  open_rb abs_fpath = Some data → 1 ≤ n → lief_parse abs_fpath = inl e →
  ∃ fig l' chunks_read,
    generate abs_fpath fname false n ibytes l
    = (inr fig, l' ++ [(WARNING, MsgParseFailed e)]) ∧
    annotations fig = [] ∧
    chunk_sizes (Z.of_nat (length data)) n = inr (chunksize fig, nr_chunksize fig) ∧
    get_chunk (open_handle data) (chunksize fig) = Some (inr chunks_read) ∧
    entropy_series fig = shannon_ent <$> chunks_read ∧
    (∀ label b_range, ibytes !! label = Some b_range →
       percentage_series fig !! label = Some (group_percentage b_range <$> chunks_read)).
Proof.
  intros Hopen Hn Hparse.
  destruct (chunk_sizes_defined (Z.of_nat (length data)) n ltac:(lia) Hn)
    as (cs & nr & Hsizes).
  pose proof (chunk_sizes_positive (Z.of_nat (length data)) n cs nr ltac:(lia) Hn Hsizes)
    as Hpos.
  destruct (sample_file_ok abs_fpath fname n ibytes data cs nr l Hopen Hsizes ltac:(lia))
    as (chunks_read & byte_ranges & Hget & _ & Hrun & Hseries).
  unfold generate, mbind, py_bind at 1. rewrite Hrun. unfold mbind, py_bind, log.
  destruct (Z.gtb_spec (Z.of_nat (size ibytes)) 0) as [Hsize|Hsize].
  - unfold mret, py_ret. rewrite (annotate_parse_failure abs_fpath e) by done.
    eexists _, _, chunks_read. split; [reflexivity|]. by simpl.
  - unfold mret, py_ret. rewrite (annotate_parse_failure abs_fpath e) by done.
    eexists _, _, chunks_read. split; [reflexivity|]. simpl.
    split; [done|]. split; [done|]. split; [done|]. split; [done|].
    intros label b_range Hlabel.
    assert (ibytes = ∅) as -> by (apply map_size_empty_iff; lia).
    by rewrite lookup_empty in Hlabel.
Qed.

(** In format-aware mode an unnamed section of a PE file makes
    [generate] fail: the ValueError of [safe_section_name] is not
    caught. *)
Lemma annotate_section_unnamed (nr_chunksize : Q) (index : Z) (off : Z)
    (st : section_state) (l : list log_record) :
  annotate_section nr_chunksize (index, {| name := None; offset := off |}) st l
  = (inl ValueError, l).
Proof. reflexivity. Qed.
End Annotations.

Lemma parse_failure_degrades_witness :
  ∃ fig l' chunks_read,
    generate (H := example_env) "/tmp/tiny.bin" "tiny.bin" false 2 __ibytes_dict__ []
    = (inr fig, l' ++ [(WARNING, MsgParseFailed "Unknown format")]) ∧
    annotations fig = [] ∧
    chunk_sizes 3 2 = inr (chunksize fig, nr_chunksize fig) ∧
    get_chunk (open_handle [x4d; x5a; x00]) (chunksize fig) = Some (inr chunks_read) ∧
    entropy_series fig = example_ent <$> chunks_read ∧
    (∀ label b_range, __ibytes_dict__ !! label = Some b_range →
       percentage_series fig !! label = Some (group_percentage b_range <$> chunks_read)).
Proof.
  apply (parse_failure_degrades (H := example_env) "/tmp/tiny.bin" "tiny.bin" 2
           __ibytes_dict__ [x4d; x5a; x00] "Unknown format" []);
    [reflexivity | lia | reflexivity].
Defined.

(** ** The scenario of the specification *)

(** A file of 1000 zero bytes in 10 chunks: chunks of 100 bytes, ten
    entropy samples, all 0, and ten percentages, all 100, for the group of
    the zero byte. *)
Example zeros_scenario :
  ∃ s l',
    sample_file (H := example_env) "/tmp/zeros.bin" "zeros.bin" 10
      {["0's"%string := [0]]} [] = (inr s, l') ∧
    s_chunksize s = 100 ∧
    s_shannon_samples s = replicate 10 0%Q ∧
    ∃ series, s_byte_ranges s !! "0's"%string = Some series ∧
              Forall2 Qeq series (replicate 10 100%Q).
Proof.
  eexists _, _. split; [vm_compute; reflexivity|]. split; [reflexivity|].
  split; [reflexivity|]. eexists. split; [vm_compute; reflexivity|].
  repeat constructor.
Qed.


(** * Further properties of the code *)

(** ** The chunk stream, continued *)

(** X1.  For a chunk size that [read] accepts (-1 or more, within the
    range of its size argument) and that is not 0, the chunks [get_chunk]
    yields, put end to end, are the bytes of the file in order: no byte is
    dropped, repeated or moved. *)
Theorem get_chunk_concat (data : list byte) (chunksize : Z) :
  -1 ≤ chunksize → chunksize ≠ 0 → fits_ssize_t chunksize →
  ∃ chunks_read,
    get_chunk (open_handle data) chunksize = Some (inr chunks_read) ∧
    concat chunks_read = ints_of_bytes data.
Proof.
  intros Hvalid Hsize _.
  destruct (get_chunk_total data chunksize Hvalid) as (chunks_read & Hget & Hchunked).
  exists chunks_read. split; [done|]. by apply (chunked_concat chunksize).
Qed.

Lemma get_chunk_concat_witness :
  ∃ chunks_read,
    get_chunk (open_handle [x4d; x5a; x00; x01; x02]) 2 = Some (inr chunks_read) ∧
    concat chunks_read = ints_of_bytes [x4d; x5a; x00; x01; x02].
Proof.
  apply (get_chunk_concat [x4d; x5a; x00; x01; x02] 2); [lia | lia |].
  unfold fits_ssize_t. simpl. lia.
Defined.

Lemma get_chunk_size_zero (data : list byte) :
  get_chunk (open_handle data) 0 = Some (inr []).
Proof.
  destruct (get_chunk_total data 0 ltac:(lia)) as (chunks_read & Hget & Hchunked).
  rewrite Hget. inversion Hchunked as [|rest chunk chunks' Hchunk Hne _]; [done|].
  exfalso. apply Hne. rewrite read_prefix_take in Hchunk by lia. by inversion Hchunk.
Qed.

Lemma get_chunk_size_minus_one (data : list byte) :
  data ≠ [] → get_chunk (open_handle data) (-1) = Some (inr [ints_of_bytes data]).
Proof.
  intros Hdata.
  destruct (get_chunk_total data (-1) ltac:(lia)) as (chunks_read & Hget & Hchunked).
  rewrite Hget.
  inversion Hchunked as [rest Hnil|rest chunk chunks' Hchunk Hne Hnext]; subst.
  - rewrite read_prefix_all in Hnil. by inversion Hnil.
  - rewrite read_prefix_all in Hchunk. inversion Hchunk; subst chunk.
    rewrite drop_all in Hnext. by rewrite (chunked_nil_inv (-1) chunks' Hnext).
Qed.

(** X2.  The chunk sizes that are not positive.  With chunk size 0 the
    first read is empty and no chunk is yielded, whatever the file holds.
    With chunk size -1 the first read returns the whole file, so a
    non-empty file is yielded as one single chunk.  With a chunk size
    below -1 (within the range of the size argument of [read]) the first
    read raises ValueError and no chunk is yielded. *)
Theorem get_chunk_nonpositive (data : list byte) (chunksize : Z) :
  (chunksize = 0 → get_chunk (open_handle data) chunksize = Some (inr [])) ∧
  (chunksize = -1 → data ≠ [] →
     get_chunk (open_handle data) chunksize = Some (inr [ints_of_bytes data])) ∧
  (chunksize < -1 → fits_ssize_t chunksize →
     get_chunk (open_handle data) chunksize = Some (inl ValueError)).
Proof.
  split; [|split].
  - intros ->. apply get_chunk_size_zero.
  - intros ->. apply get_chunk_size_minus_one.
  - intros Hsize _. by apply get_chunk_invalid_size.
Qed.

Lemma get_chunk_nonpositive_witness :
  get_chunk (open_handle [x4d; x5a; x00]) 0 = Some (inr []) ∧
  get_chunk (open_handle [x4d; x5a; x00]) (-1) = Some (inr [ints_of_bytes [x4d; x5a; x00]]) ∧
  get_chunk (open_handle [x4d; x5a; x00]) (-3) = Some (inl ValueError).
Proof.
  split; [|split].
  - by apply (get_chunk_nonpositive [x4d; x5a; x00] 0).
  - by apply (get_chunk_nonpositive [x4d; x5a; x00] (-1)).
  - apply (get_chunk_nonpositive [x4d; x5a; x00] (-3)); [lia|].
    unfold fits_ssize_t. simpl. lia.
Defined.

(** ** The sampling pass, continued *)

Section SamplingResult.
Context `{Env}.

(** The whole outcome of the pass, whenever the chunk size is defined. *)
Lemma sample_file_result (abs_fpath fname : string) (n : Z) (ibytes : gmap string (list Z))
    (data : list byte) (chunksize : Z) (nr_chunksize : Q) (l : list log_record) :
  open_rb abs_fpath = Some data →
  chunk_sizes (Z.of_nat (length data)) n = inr (chunksize, nr_chunksize) →
  -1 ≤ chunksize →
  ∃ chunks_read,
    get_chunk (open_handle data) chunksize = Some (inr chunks_read) ∧
    chunked chunksize data chunks_read ∧
    sample_file abs_fpath fname n ibytes l
    = (inr {| s_chunksize := chunksize;
              s_nr_chunksize := nr_chunksize;
              s_shannon_samples := shannon_ent <$> chunks_read;
              s_byte_ranges := series_of ibytes chunks_read |},
       l ++ [(DEBUG, MsgOpening fname);
             (DEBUG, MsgSizes (Z.of_nat (length data)) chunksize nr_chunksize n);
             (DEBUG, MsgIteration chunksize)]).
Proof.
  intros Hopen Hsizes Hvalid.
  destruct (get_chunk_total data chunksize Hvalid) as (chunks_read & Hget & Hchunked).
  set (byte_ranges0 := if Z.of_nat (size ibytes) >? 0
                       then (λ _ : list Z, @nil Q) <$> ibytes else ∅).
  assert (byte_ranges0 = (λ _ : list Z, @nil Q) <$> ibytes) as Hinit.
  { unfold byte_ranges0. destruct (Z.gtb_spec (Z.of_nat (size ibytes)) 0) as [_|Hsize]; [done|].
    assert (ibytes = ∅) as -> by (apply map_size_empty_iff; lia). by rewrite fmap_empty. }
  set (l3 := l ++ [(DEBUG, MsgOpening fname);
             (DEBUG, MsgSizes (Z.of_nat (length data)) chunksize nr_chunksize n);
             (DEBUG, MsgIteration chunksize)]).
  destruct (sample_chunks_ok ibytes chunks_read
              {| st_shannon_samples := []; st_prev_ent := 0; st_byte_ranges := byte_ranges0 |}
              l3)
    as (st' & Hrun & Hin & Hout).
  { by apply (chunked_nonempty chunksize data). }
  { intros k [v Hkv]. simpl. rewrite Hinit, lookup_fmap, Hkv. by eexists. }
  pose proof (sample_chunks_entropy _ _ _ _ _ _ Hrun) as Hent. simpl in Hent.
  assert (st_byte_ranges st' = series_of ibytes chunks_read) as Hseries.
  { apply map_eq. intros k. unfold series_of. rewrite lookup_fmap.
    destruct (ibytes !! k) as [v|] eqn:Hk.
    - rewrite (Hin k v Hk). simpl. by rewrite Hinit, lookup_fmap, Hk.
    - rewrite (Hout k Hk). simpl. by rewrite Hinit, lookup_fmap, Hk. }
  exists chunks_read. split; [done|]. split; [done|].
  unfold sample_file. rewrite Hopen. unfold mbind, py_bind, lift, log.
  rewrite Hsizes, Hget. fold byte_ranges0.
  rewrite <- !app_assoc. simpl. unfold l3 in *.
  rewrite Hrun. unfold mret, py_ret. by rewrite Hent, Hseries.
Qed.

(** The same for a requested chunk count [n >= 1], for which the chunk
    size is at least 1. *)
Lemma sample_file_requested (abs_fpath fname : string) (n : Z)
    (ibytes : gmap string (list Z)) (data : list byte) (chunksize : Z)
    (nr_chunksize : Q) (l : list log_record) :
  open_rb abs_fpath = Some data → 1 ≤ n →
  chunk_sizes (Z.of_nat (length data)) n = inr (chunksize, nr_chunksize) →
  ∃ chunks_read,
    get_chunk (open_handle data) chunksize = Some (inr chunks_read) ∧
    chunked chunksize data chunks_read ∧
    sample_file abs_fpath fname n ibytes l
    = (inr {| s_chunksize := chunksize;
              s_nr_chunksize := nr_chunksize;
              s_shannon_samples := shannon_ent <$> chunks_read;
              s_byte_ranges := series_of ibytes chunks_read |},
       l ++ [(DEBUG, MsgOpening fname);
             (DEBUG, MsgSizes (Z.of_nat (length data)) chunksize nr_chunksize n);
             (DEBUG, MsgIteration chunksize)]).
Proof.
  intros Hopen Hn Hsizes. apply sample_file_result; [done | done |].
  pose proof (chunk_sizes_positive _ n chunksize nr_chunksize (Nat2Z.is_nonneg _) Hn Hsizes).
  lia.
Qed.

(** X3.  The result has exactly one percentage series per group of the
    interesting-byte spec, and none under any other name; in particular
    an empty spec gives no percentage series at all.  Each series holds
    the percentage of its group for each chunk, in chunk order. *)
Theorem one_series_per_group (abs_fpath fname : string) (n : Z)
    (ibytes : gmap string (list Z)) (data : list byte) (l : list log_record) :
  open_rb abs_fpath = Some data → 1 ≤ n →
  ∃ s l' chunks_read,
    sample_file abs_fpath fname n ibytes l = (inr s, l') ∧
    get_chunk (open_handle data) (s_chunksize s) = Some (inr chunks_read) ∧
    dom (s_byte_ranges s) = dom ibytes ∧
    (ibytes = ∅ → s_byte_ranges s = ∅) ∧
    s_byte_ranges s = series_of ibytes chunks_read.
Proof.
  intros Hopen Hn.
  destruct (chunk_sizes_defined (Z.of_nat (length data)) n ltac:(lia) Hn)
    as (cs & nr & Hsizes).
  destruct (sample_file_requested abs_fpath fname n ibytes data cs nr l Hopen Hn Hsizes)
    as (chunks_read & Hget & _ & Hrun).
  eexists _, _, chunks_read. split; [exact Hrun|]. simpl. split; [done|].
  split; [|split; [|done]].
  - unfold series_of. apply dom_fmap_L.
  - intros ->. unfold series_of. by rewrite fmap_empty.
Qed.

(** X4.  The series never has more entries than chunks were requested:
    rounding the chunk size up can only lower the number of chunks. *)
Theorem series_at_most_requested (abs_fpath fname : string) (n : Z)
    (ibytes : gmap string (list Z)) (data : list byte) (l : list log_record) :
  open_rb abs_fpath = Some data → 1 ≤ n →
  ∃ s l',
    sample_file abs_fpath fname n ibytes l = (inr s, l') ∧
    Z.of_nat (length (s_shannon_samples s)) ≤ n.
Proof.
  intros Hopen Hn. set (fs := Z.of_nat (length data)).
  destruct (chunk_sizes_defined fs n ltac:(lia) Hn) as (cs & nr & Hsizes).
  pose proof (chunk_sizes_positive fs n cs nr ltac:(lia) Hn Hsizes) as Hpos.
  destruct (sample_file_requested abs_fpath fname n ibytes data cs nr l Hopen Hn Hsizes)
    as (chunks_read & _ & Hchunked & Hrun).
  pose proof (chunked_count cs data chunks_read Hpos Hchunked) as Hcount.
  eexists _, _. split; [exact Hrun|]. simpl. rewrite length_fmap.
  fold fs in Hcount. unfold is_ceil in Hcount.
  destruct (Z_lt_le_dec fs n) as [Hlt | Hle].
  - rewrite chunk_sizes_small in Hsizes by lia. inversion Hsizes; subst. lia.
  - rewrite chunk_sizes_large in Hsizes by lia. inversion Hsizes as [[Hcs Hnr]].
    pose proof (neg_floordiv_is_ceil fs n ltac:(lia)) as Hceil.
    rewrite Hcs in Hceil. unfold is_ceil in Hceil. nia.
Qed.

(** X5.  The entropy series does not depend on the interesting-byte
    spec: two passes over the same file with the same chunk count and
    different specs produce the same chunk size, scale and entropy
    samples. *)
Theorem entropy_independent_of_spec (abs_fpath fname : string) (n : Z)
    (ibytes1 ibytes2 : gmap string (list Z)) (data : list byte) (l : list log_record) :
  open_rb abs_fpath = Some data → 1 ≤ n →
  ∃ s1 s2 l',
    sample_file abs_fpath fname n ibytes1 l = (inr s1, l') ∧
    sample_file abs_fpath fname n ibytes2 l = (inr s2, l') ∧
    s_chunksize s1 = s_chunksize s2 ∧
    s_nr_chunksize s1 = s_nr_chunksize s2 ∧
    s_shannon_samples s1 = s_shannon_samples s2.
Proof.
  intros Hopen Hn.
  destruct (chunk_sizes_defined (Z.of_nat (length data)) n ltac:(lia) Hn)
    as (cs & nr & Hsizes).
  destruct (sample_file_requested abs_fpath fname n ibytes1 data cs nr l Hopen Hn Hsizes)
    as (chunks1 & Hget1 & _ & Hrun1).
  destruct (sample_file_requested abs_fpath fname n ibytes2 data cs nr l Hopen Hn Hsizes)
    as (chunks2 & Hget2 & _ & Hrun2).
  assert (chunks1 = chunks2) as -> by congruence.
  eexists _, _, _. split; [exact Hrun1|]. split; [exact Hrun2|]. by simpl.
Qed.

(** X6.  A chunk count of 0 is not rejected beforehand: on every file
    that can be opened [generate] raises ZeroDivisionError, in blob mode
    or not, right after the file has been opened. *)
Theorem zero_chunk_count_raises (abs_fpath fname : string) (blob : bool)
    (ibytes : gmap string (list Z)) (data : list byte) (l : list log_record) :
  open_rb abs_fpath = Some data →
  generate abs_fpath fname blob 0 ibytes l
  = (inl ZeroDivisionError, l ++ [(DEBUG, MsgOpening fname)]).
Proof.
  intros Hopen. unfold generate, sample_file. rewrite Hopen.
  unfold mbind, py_bind, lift, log, chunk_sizes, floordiv.
  by destruct (Z.gtb_spec 0 (Z.of_nat (length data))) as [Hlt|_]; [lia|].
Qed.

(** When the chunk size is below -1 the pass aborts on the first read. *)
Lemma sample_file_invalid_size (abs_fpath fname : string) (n : Z)
    (ibytes : gmap string (list Z)) (data : list byte) (chunksize : Z)
    (nr_chunksize : Q) (l : list log_record) :
  open_rb abs_fpath = Some data →
  chunk_sizes (Z.of_nat (length data)) n = inr (chunksize, nr_chunksize) →
  chunksize < -1 →
  sample_file abs_fpath fname n ibytes l
  = (inl ValueError,
     l ++ [(DEBUG, MsgOpening fname);
           (DEBUG, MsgSizes (Z.of_nat (length data)) chunksize nr_chunksize n);
           (DEBUG, MsgIteration chunksize)]).
Proof.
  intros Hopen Hsizes Hsize. unfold sample_file. rewrite Hopen.
  unfold mbind, py_bind, lift, log. rewrite Hsizes.
  rewrite get_chunk_invalid_size by done. unfold raise. by rewrite <- !app_assoc.
Qed.

(** X7.  A negative chunk count [n] is not rejected beforehand.  The
    chunk size is then [-(fs // -n)].  When the file has fewer than [-n]
    bytes it is 0, no chunk is read and the series is empty.  When the
    file has at least [-n] and fewer than [2 * -n] bytes it is -1, the
    first read returns the whole file and the series has a single sample,
    for the file as a whole.  When the file has [2 * -n] bytes or more it
    is below -1, the first read raises ValueError and [generate] aborts,
    in blob mode or not. *)
Theorem negative_chunk_count (abs_fpath fname : string) (n : Z)
    (ibytes : gmap string (list Z)) (data : list byte) (l : list log_record) :
  open_rb abs_fpath = Some data → n < 0 →
  let fs := Z.of_nat (length data) in
  (fs < - n →
     ∃ s l', sample_file abs_fpath fname n ibytes l = (inr s, l') ∧
             s_chunksize s = 0 ∧ s_shannon_samples s = []) ∧
  (- n ≤ fs < 2 * - n →
     ∃ s l', sample_file abs_fpath fname n ibytes l = (inr s, l') ∧
             s_chunksize s = -1 ∧
             s_shannon_samples s = [shannon_ent (ints_of_bytes data)]) ∧
  (2 * - n ≤ fs →
     ∀ blob, ∃ l', generate abs_fpath fname blob n ibytes l = (inl ValueError, l')).
Proof.
  intros Hopen Hn fs.
  assert (chunk_sizes fs n = inr (- (fs / - n), (inject_Z fs / inject_Z n)%Q)) as Hsizes.
  { rewrite chunk_sizes_large by lia. do 3 f_equal.
    rewrite <- (Z.opp_involutive n) at 1. apply Z.div_opp_opp. lia. }
  split; [|split].
  - intros Hlt. rewrite Z.div_small in Hsizes by lia. simpl in Hsizes.
    destruct (sample_file_result abs_fpath fname n ibytes data _ _ l Hopen Hsizes ltac:(lia))
      as (chunks_read & Hget & _ & Hrun).
    rewrite get_chunk_size_zero in Hget. inversion Hget; subst chunks_read.
    eexists _, _. split; [exact Hrun|]. by simpl.
  - intros [Hle Hlt]. assert (fs / - n = 1) as Hq.
    { symmetry. apply (Z.div_unique fs (- n) 1 (fs + n)); lia. }
    rewrite Hq in Hsizes. simpl in Hsizes.
    destruct (sample_file_result abs_fpath fname n ibytes data _ _ l Hopen Hsizes ltac:(lia))
      as (chunks_read & Hget & _ & Hrun).
    rewrite get_chunk_size_minus_one in Hget by (destruct data; [simpl in *; lia | done]).
    inversion Hget; subst chunks_read.
    eexists _, _. split; [exact Hrun|]. by simpl.
  - intros Hle blob. assert (2 ≤ fs / - n) as Hq by (apply Z.div_le_lower_bound; lia).
    eexists. unfold generate, mbind, py_bind at 1.
    by rewrite (sample_file_invalid_size abs_fpath fname n ibytes data _ _ l Hopen Hsizes
                  ltac:(lia)).
Qed.
End SamplingResult.

Lemma one_series_per_group_witness :
  ∃ s l' chunks_read,
    sample_file (H := example_env) "/tmp/tiny.bin" "tiny.bin" 2 __ibytes_dict__ [] = (inr s, l') ∧
    get_chunk (open_handle [x4d; x5a; x00]) (s_chunksize s) = Some (inr chunks_read) ∧
    dom (s_byte_ranges s) = dom __ibytes_dict__ ∧
    (__ibytes_dict__ = ∅ → s_byte_ranges s = ∅) ∧
    s_byte_ranges s = series_of __ibytes_dict__ chunks_read.
Proof.
  apply (one_series_per_group (H := example_env) "/tmp/tiny.bin" "tiny.bin" 2
           __ibytes_dict__ [x4d; x5a; x00] []); [reflexivity | lia].
Defined.

Lemma series_at_most_requested_witness :
  ∃ s l',
    sample_file (H := example_env) "/tmp/zeros.bin" "zeros.bin" 750 ∅ [] = (inr s, l') ∧
    Z.of_nat (length (s_shannon_samples s)) ≤ 750.
Proof.
  apply (series_at_most_requested (H := example_env) "/tmp/zeros.bin" "zeros.bin" 750
           ∅ (replicate 1000 x00) []); [reflexivity | lia].
Defined.

(** With 1000 bytes and 750 chunks requested, chunks of 2 bytes give 500
    samples. *)
Example fewer_samples_than_requested :
  ∃ s l',
    sample_file (H := example_env) "/tmp/zeros.bin" "zeros.bin" 750 ∅ [] = (inr s, l') ∧
    s_chunksize s = 2 ∧ length (s_shannon_samples s) = 500%nat.
Proof. eexists _, _. split; [vm_compute; reflexivity|]. by split. Qed.

Lemma entropy_independent_of_spec_witness :
  ∃ s1 s2 l',
    sample_file (H := example_env) "/tmp/tiny.bin" "tiny.bin" 2 __ibytes_dict__ [] = (inr s1, l') ∧
    sample_file (H := example_env) "/tmp/tiny.bin" "tiny.bin" 2 ∅ [] = (inr s2, l') ∧
    s_chunksize s1 = s_chunksize s2 ∧
    s_nr_chunksize s1 = s_nr_chunksize s2 ∧
    s_shannon_samples s1 = s_shannon_samples s2.
Proof.
  apply (entropy_independent_of_spec (H := example_env) "/tmp/tiny.bin" "tiny.bin" 2
           __ibytes_dict__ ∅ [x4d; x5a; x00] []); [reflexivity | lia].
Defined.

Lemma zero_chunk_count_raises_witness :
  generate (H := example_env) "/tmp/tiny.bin" "tiny.bin" true 0 ∅ []
  = (inl ZeroDivisionError, [] ++ [(DEBUG, MsgOpening "tiny.bin")]).
Proof.
  apply (zero_chunk_count_raises (H := example_env) "/tmp/tiny.bin" "tiny.bin" true
           ∅ [x4d; x5a; x00] []). reflexivity.
Defined.

Lemma negative_chunk_count_witness :
  (∃ s l', sample_file (H := example_env) "/tmp/tiny.bin" "tiny.bin" (-5) ∅ [] = (inr s, l') ∧
           s_chunksize s = 0 ∧ s_shannon_samples s = []) ∧
  (∃ s l', sample_file (H := example_env) "/tmp/tiny.bin" "tiny.bin" (-2) ∅ [] = (inr s, l') ∧
           s_chunksize s = -1 ∧
           s_shannon_samples s = [example_ent (ints_of_bytes [x4d; x5a; x00])]) ∧
  (∀ blob, ∃ l', generate (H := example_env) "/tmp/tiny.bin" "tiny.bin" blob (-1) ∅ []
                 = (inl ValueError, l')).
Proof.
  split; [|split].
  - apply (negative_chunk_count (H := example_env) "/tmp/tiny.bin" "tiny.bin" (-5)
             ∅ [x4d; x5a; x00] []); [reflexivity | lia | simpl; lia].
  - apply (negative_chunk_count (H := example_env) "/tmp/tiny.bin" "tiny.bin" (-2)
             ∅ [x4d; x5a; x00] []); [reflexivity | lia | simpl; lia].
  - apply (negative_chunk_count (H := example_env) "/tmp/tiny.bin" "tiny.bin" (-1)
             ∅ [x4d; x5a; x00] []); [reflexivity | lia | simpl; lia].
Defined.

(** ** Percentages, continued *)

Lemma chunk_length_pos (chunk : list Z) :
  chunk ≠ [] → (0 < inject_Z (Z.of_nat (length chunk)))%Q.
Proof.
  intros Hne. rewrite <- (Zlt_Qlt 0). destruct chunk; [done | simpl; lia].
Qed.

Lemma percent_of_nonneg (n : Z) (chunk : list Z) :
  chunk ≠ [] → 0 ≤ n → (0 <= percent_of n chunk)%Q.
Proof.
  intros Hne Hn. unfold percent_of. apply Qmult_le_0_compat; [|done].
  apply Qle_shift_div_l; [by apply chunk_length_pos|].
  rewrite Qmult_0_l. by rewrite <- (Zle_Qle 0).
Qed.

Lemma percent_of_le_100 (n : Z) (chunk : list Z) :
  chunk ≠ [] → n ≤ Z.of_nat (length chunk) → (percent_of n chunk <= 100)%Q.
Proof.
  intros Hne Hn. unfold percent_of.
  apply (Qle_trans _ (1 * 100)%Q); [|done].
  apply Qmult_le_compat_r; [|done].
  apply Qle_shift_div_r; [by apply chunk_length_pos|].
  rewrite Qmult_1_l. by rewrite <- Zle_Qle.
Qed.

Lemma listed_occurrences_nonneg (b_range chunk : list Z) :
  0 ≤ listed_occurrences b_range chunk.
Proof.
  induction b_range as [|b b_range IH]; [done|].
  change (listed_occurrences (b :: b_range) chunk)
    with (count_of b chunk + listed_occurrences b_range chunk).
  pose proof (count_of_nonneg b chunk). lia.
Qed.

Lemma listed_occurrences_app (b1 b2 chunk : list Z) :
  listed_occurrences (b1 ++ b2) chunk
  = listed_occurrences b1 chunk + listed_occurrences b2 chunk.
Proof.
  induction b1 as [|b b1 IH]; [done|].
  change (listed_occurrences ((b :: b1) ++ b2) chunk)
    with (count_of b chunk + listed_occurrences (b1 ++ b2) chunk).
  change (listed_occurrences (b :: b1) chunk)
    with (count_of b chunk + listed_occurrences b1 chunk).
  rewrite IH. lia.
Qed.

Lemma matching_le_length (b_range chunk : list Z) :
  matching b_range chunk ≤ Z.of_nat (length chunk).
Proof. unfold matching. pose proof (length_filter (λ x, x ∈ b_range) chunk). lia. Qed.

(** X8.  On a non-empty chunk the percentage of a group is computed
    without error and is never negative; when the group lists no value
    twice it is at most 100. *)
Theorem percentage_bounds (b_range chunk : list Z) :
  chunk ≠ [] →
  ∃ pc,
    percentage (occurrences (Counter chunk) b_range) chunk = inr pc ∧
    (0 <= pc)%Q ∧
    (NoDup b_range → (pc <= 100)%Q).
Proof.
  intros Hne. eexists. split; [by apply percentage_nonempty|].
  rewrite occurrences_Counter. split.
  - apply percent_of_nonneg; [done | apply listed_occurrences_nonneg].
  - intros Hnd. apply percent_of_le_100; [done|].
    rewrite listed_occurrences_NoDup by done. apply matching_le_length.
Qed.

Lemma percentage_bounds_witness :
  ∃ pc,
    percentage (occurrences (Counter [0; 0; 65; 7]) [0; 65]) [0; 0; 65; 7] = inr pc ∧
    (0 <= pc)%Q ∧ (pc <= 100)%Q.
Proof.
  destruct (percentage_bounds [0; 65] [0; 0; 65; 7]) as (pc & Hpc & Hlo & Hhi); [done|].
  exists pc. split; [exact Hpc|]. split; [exact Hlo|]. apply Hhi.
  apply NoDup_cons. split; [|apply NoDup_singleton]. by intros ?%list_elem_of_singleton.
Defined.

(** X9.  The occurrence counts of two groups that share no value,
    neither of which lists a value twice, are not negative and add up to
    at most the length of the chunk: no byte is counted for both
    groups. *)
Theorem disjoint_groups_occurrences (b_range1 b_range2 chunk : list Z) :
  NoDup b_range1 → NoDup b_range2 →
  (∀ x, x ∈ b_range1 → x ∉ b_range2) →
  0 ≤ occurrences (Counter chunk) b_range1 ∧
  0 ≤ occurrences (Counter chunk) b_range2 ∧
  occurrences (Counter chunk) b_range1 + occurrences (Counter chunk) b_range2
  ≤ Z.of_nat (length chunk).
Proof.
  intros Hnd1 Hnd2 Hdisj. rewrite !occurrences_Counter.
  split; [apply listed_occurrences_nonneg|]. split; [apply listed_occurrences_nonneg|].
  rewrite <- listed_occurrences_app.
  rewrite listed_occurrences_NoDup by (by apply NoDup_app).
  apply matching_le_length.
Qed.

Lemma disjoint_groups_occurrences_witness :
  0 ≤ occurrences (Counter [0; 0; 65; 7]) [0] ∧
  0 ≤ occurrences (Counter [0; 0; 65; 7]) [65; 66] ∧
  occurrences (Counter [0; 0; 65; 7]) [0] + occurrences (Counter [0; 0; 65; 7]) [65; 66]
  ≤ Z.of_nat (length [0; 0; 65; 7]).
Proof.
  apply (disjoint_groups_occurrences [0] [65; 66] [0; 0; 65; 7]).
  - apply NoDup_singleton.
  - apply NoDup_cons. split; [|apply NoDup_singleton]. by intros ?%list_elem_of_singleton.
  - intros x ->%list_elem_of_singleton [?|[?|Hnil]%elem_of_cons]%elem_of_cons; try done.
    by apply not_elem_of_nil in Hnil.
Defined.

Lemma ints_of_bytes_range (bytes : list byte) (x : Z) :
  x ∈ ints_of_bytes bytes → 0 ≤ x ≤ 255.
Proof.
  unfold ints_of_bytes. intros (b & -> & _)%list_elem_of_fmap.
  pose proof (Byte.to_N_bounded b). lia.
Qed.

(** X10.  A value outside [[0, 255]] in a group is never matched: on
    every non-empty chunk read from a file, a group all of whose values
    are out of range has the percentage 0. *)
Theorem out_of_range_group_is_zero (bytes : list byte) (b_range : list Z) :
  bytes ≠ [] → Forall (λ b, b < 0 ∨ 255 < b) b_range →
  ∃ pc,
    percentage (occurrences (Counter (ints_of_bytes bytes)) b_range) (ints_of_bytes bytes)
    = inr pc ∧
    (pc == 0)%Q.
Proof.
  intros Hne Hout. eexists. split.
  { apply percentage_nonempty. intros Hnil. apply Hne.
    apply (f_equal length) in Hnil. rewrite ints_of_bytes_length in Hnil.
    by apply length_zero_iff_nil. }
  rewrite occurrences_Counter, listed_occurrences_no_match; [apply percent_of_zero|].
  unfold matching.
  replace (filter (λ x, x ∈ b_range) (ints_of_bytes bytes)) with (@nil Z); [done|].
  symmetry. apply elem_of_nil_inv. intros x [Hx Hin]%list_elem_of_filter.
  apply ints_of_bytes_range in Hin. rewrite Forall_forall in Hout.
  destruct (Hout x Hx); lia.
Qed.

Lemma out_of_range_group_is_zero_witness :
  ∃ pc,
    percentage (occurrences (Counter (ints_of_bytes [x4d; x5a; x00])) [300; -1])
      (ints_of_bytes [x4d; x5a; x00]) = inr pc ∧
    (pc == 0)%Q.
Proof.
  apply (out_of_range_group_is_zero [x4d; x5a; x00] [300; -1]); [done|].
  apply Forall_cons. split; [right; lia|]. apply Forall_cons. split; [left; lia|].
  apply Forall_nil_2.
Defined.

(** ** Format-aware mode, continued *)

Lemma chunk_sizes_scale_pos (fs n chunksize : Z) (nr_chunksize : Q) :
  0 ≤ fs → 1 ≤ n → chunk_sizes fs n = inr (chunksize, nr_chunksize) →
  (0 < nr_chunksize)%Q.
Proof.
  intros Hfs Hn Hsizes. destruct (Z_lt_le_dec fs n) as [Hlt | Hle].
  - rewrite chunk_sizes_small in Hsizes by lia. by inversion Hsizes.
  - rewrite chunk_sizes_large in Hsizes by lia. inversion Hsizes.
    apply Qlt_shift_div_l; [rewrite <- (Zlt_Qlt 0); lia|].
    rewrite Qmult_0_l. rewrite <- (Zlt_Qlt 0). lia.
Qed.

Section Landmarks.
Context `{Env}.

(** [generate] is the sampling pass followed by the format-specific
    part. *)
Lemma generate_after_sampling (abs_fpath fname : string) (blob : bool) (n : Z)
    (ibytes : gmap string (list Z)) (s : Samples) (l l1 : list log_record) :
  sample_file abs_fpath fname n ibytes l = (inr s, l1) →
  generate abs_fpath fname blob n ibytes l
  = match annotate abs_fpath blob (s_nr_chunksize s) (l1 ++ log_after_sampling fname ibytes) with
    | (inl e, l') => (inl e, l')
    | (inr (landmarks, gap), l') => (inr (figure_of ibytes s landmarks gap), l')
    end.
Proof.
  intros Hrun. unfold generate, mbind, py_bind at 1. rewrite Hrun.
  unfold mbind, py_bind, log, log_after_sampling, figure_of, mret, py_ret.
  destruct (Z.of_nat (size ibytes) >? 0); rewrite <- !app_assoc; simpl;
    by destruct (annotate _ _ _ _) as [[e|[landmarks gap]] l'].
Qed.

Lemma annotate_section_named (nr_chunksize : Q) (index : Z) (sect : section)
    (st : section_state) (l : list log_record) :
  ¬ (nr_chunksize == 0)%Q → section_named sect →
  annotate_section nr_chunksize (index, sect) st l
  = (inr {| annotations_so_far :=
              annotations_so_far st ++ [section_landmark nr_chunksize sect];
            longest_section_name :=
              Z.max (longest_section_name st)
                    (Z.of_nat (String.length (section_label sect))) |},
     l ++ [(DEBUG, MsgSection (section_label sect) (offset sect))]).
Proof.
  intros Hnz (c & s & Hname). unfold annotate_section, section_landmark, section_label.
  rewrite Hname. unfold mbind, py_bind, lift, log, chunk_index_of. cbn [safe_section_name].
  rewrite truediv_nonzero by done. unfold mret, py_ret, id. cbn [default]. unfold id.
  do 3 f_equal.
  destruct (Z.gtb_spec (Z.of_nat (String.length (String c s))) (longest_section_name st)); lia.
Qed.

Lemma annotate_sections_named (nr_chunksize : Q) (sects : list section) (index : Z)
    (st : section_state) (l : list log_record) :
  ¬ (nr_chunksize == 0)%Q → Forall section_named sects →
  for_each (zip (seqZ index (Z.of_nat (length sects))) sects)
    (annotate_section nr_chunksize) st l
  = (inr {| annotations_so_far :=
              annotations_so_far st ++ (section_landmark nr_chunksize <$> sects);
            longest_section_name := longest_label_from (longest_section_name st) sects |},
     l ++ ((λ sect, (DEBUG, MsgSection (section_label sect) (offset sect))) <$> sects)).
Proof.
  intros Hnz Hnamed. revert index st l.
  induction Hnamed as [|sect sects Hsect _ IH]; intros index st l.
  - simpl. unfold mret, py_ret. rewrite !app_nil_r. by destruct st.
  - cbn [length]. rewrite Nat2Z.inj_succ, seqZ_cons by lia. cbn [zip zip_with for_each].
    unfold mbind, py_bind at 1. rewrite annotate_section_named by done.
    replace (Z.pred (Z.succ (Z.of_nat (length sects)))) with (Z.of_nat (length sects)) by lia.
    rewrite IH. cbn [annotations_so_far longest_section_name fmap list_fmap longest_label_from foldl].
    by rewrite <- !app_assoc.
Qed.
End Landmarks.

Section FormatAware.
Context `{Env}.

Lemma annotate_pe (abs_fpath format : string) (exebin : pe_binary) (nr_chunksize : Q)
    (l : list log_record) :
  ¬ (nr_chunksize == 0)%Q →
  lief_parse abs_fpath = inr (PE format exebin) →
  Forall section_named (sections exebin) →
  annotate abs_fpath false nr_chunksize l
  = (inr (("EP"%string,
           (inject_Z (va_to_offset exebin (entrypoint exebin)) / nr_chunksize)%Q)
          :: (section_landmark nr_chunksize <$> sections exebin),
          longest_label (sections exebin) / 3),
     l ++ [(DEBUG, MsgParsed format); (DEBUG, MsgPE)]
       ++ ((λ sect, (DEBUG, MsgSection (section_label sect) (offset sect)))
             <$> sections exebin)).
Proof.
  intros Hnz Hparse Hnamed. unfold annotate. rewrite Hparse.
  unfold mbind, py_bind, log, lift, chunk_index_of, mret, py_ret. cbn [format_of].
  rewrite truediv_nonzero by done. rewrite annotate_sections_named by done.
  cbn [annotations_so_far longest_section_name app]. unfold longest_label.
  by rewrite <- !app_assoc.
Qed.

Lemma annotate_section_without_name (nr_chunksize : Q) (index : Z) (sect : section)
    (st : section_state) (l : list log_record) :
  name sect = None ∨ name sect = Some EmptyString →
  annotate_section nr_chunksize (index, sect) st l = (inl ValueError, l).
Proof. intros [Hname | Hname]; unfold annotate_section; by rewrite Hname. Qed.

Lemma annotate_sections_unnamed (nr_chunksize : Q) (pre post : list section)
    (sect : section) (index : Z) (st : section_state) (l : list log_record) :
  ¬ (nr_chunksize == 0)%Q → Forall section_named pre →
  name sect = None ∨ name sect = Some EmptyString →
  ∃ l',
    for_each (zip (seqZ index (Z.of_nat (length (pre ++ sect :: post)))) (pre ++ sect :: post))
      (annotate_section nr_chunksize) st l
    = (inl ValueError, l').
Proof.
  intros Hnz Hnamed Hsect. revert index st l.
  induction Hnamed as [|sect0 pre Hsect0 _ IH]; intros index st l.
  - cbn [app length]. rewrite Nat2Z.inj_succ, seqZ_cons by lia. cbn [zip zip_with for_each].
    unfold mbind, py_bind at 1. rewrite annotate_section_without_name by done. by eexists.
  - cbn [app length]. rewrite Nat2Z.inj_succ, seqZ_cons by lia. cbn [zip zip_with for_each].
    unfold mbind, py_bind at 1. rewrite annotate_section_named by done.
    replace (Z.pred (Z.succ (Z.of_nat (length (pre ++ sect :: post)))))
      with (Z.of_nat (length (pre ++ sect :: post))) by lia.
    apply IH.
Qed.

(** X11.  In blob mode [generate] returns the figure of the sampling
    pass with no landmark and the default title gap, for every file that
    can be opened and every chunk count [n >= 1]; the last record of the
    log is the warning that the file is parsed as a blob. *)
Theorem blob_mode_figure (abs_fpath fname : string) (n : Z)
    (ibytes : gmap string (list Z)) (data : list byte) (l : list log_record) :
  open_rb abs_fpath = Some data → 1 ≤ n →
  ∃ s l1,
    sample_file abs_fpath fname n ibytes l = (inr s, l1) ∧
    generate abs_fpath fname true n ibytes l
    = (inr {| chunksize := s_chunksize s;
              nr_chunksize := s_nr_chunksize s;
              entropy_series := s_shannon_samples s;
              percentage_series := s_byte_ranges s;
              annotations := [];
              title_gap := 1 |},
       l1 ++ log_after_sampling fname ibytes ++ [(WARNING, MsgBlob)]).
Proof.
  intros Hopen Hn.
  destruct (chunk_sizes_defined (Z.of_nat (length data)) n ltac:(lia) Hn)
    as (cs & nr & Hsizes).
  destruct (sample_file_requested abs_fpath fname n ibytes data cs nr l Hopen Hn Hsizes)
    as (chunks_read & _ & _ & Hrun).
  eexists _, _. split; [exact Hrun|].
  rewrite (generate_after_sampling _ _ _ _ _ _ _ _ Hrun).
  unfold annotate, mbind, py_bind, log, mret, py_ret, figure_of. cbn.
  rewrite <- !app_assoc. do 2 f_equal. f_equal.
  destruct (Z.gtb_spec (Z.of_nat (size ibytes)) 0) as [_|Hsize]; [done|].
  assert (ibytes = ∅) as -> by (apply map_size_empty_iff; lia).
  unfold series_of. by rewrite fmap_empty.
Qed.

(** X13.  For a PE file all of whose sections have a name, and every
    chunk count [n >= 1], [generate] in format-aware mode returns the
    landmark "EP" at the file offset of the entry point divided by the
    scale, followed by one landmark per section, in the order of the
    sections, labelled with the section's name and placed at the
    section's offset divided by the scale; the title gap is a third of
    the length of the longest section name, rounded down. *)
Theorem pe_landmarks (abs_fpath fname format : string) (n : Z)
    (ibytes : gmap string (list Z)) (data : list byte) (exebin : pe_binary)
    (l : list log_record) :
  open_rb abs_fpath = Some data → 1 ≤ n →
  lief_parse abs_fpath = inr (PE format exebin) →
  Forall section_named (sections exebin) →
  ∃ fig l',
    generate abs_fpath fname false n ibytes l = (inr fig, l') ∧
    chunk_sizes (Z.of_nat (length data)) n = inr (chunksize fig, nr_chunksize fig) ∧
    annotations fig
    = ("EP"%string,
       (inject_Z (va_to_offset exebin (entrypoint exebin)) / nr_chunksize fig)%Q)
      :: (section_landmark (nr_chunksize fig) <$> sections exebin) ∧
    title_gap fig = longest_label (sections exebin) / 3.
Proof.
  intros Hopen Hn Hparse Hnamed.
  destruct (chunk_sizes_defined (Z.of_nat (length data)) n ltac:(lia) Hn)
    as (cs & nr & Hsizes).
  pose proof (chunk_sizes_scale_pos (Z.of_nat (length data)) n cs nr ltac:(lia) Hn Hsizes)
    as Hpos.
  assert (¬ (nr == 0)%Q) as Hnz by (intros Heq; rewrite Heq in Hpos; by apply Qlt_irrefl in Hpos).
  destruct (sample_file_requested abs_fpath fname n ibytes data cs nr l Hopen Hn Hsizes)
    as (chunks_read & _ & _ & Hrun).
  rewrite (generate_after_sampling _ _ _ _ _ _ _ _ Hrun). cbn [s_nr_chunksize].
  rewrite (annotate_pe abs_fpath format exebin nr _ Hnz Hparse Hnamed).
  eexists _, _. split; [reflexivity|]. by cbn.
Qed.

(** X14.  For a PE file with a section whose name is empty or absent,
    the sections before it having names, [generate] in format-aware mode
    does not return a figure: the ValueError raised for that section is
    not caught. *)
Theorem pe_unnamed_section_aborts (abs_fpath fname format : string) (n : Z)
    (ibytes : gmap string (list Z)) (data : list byte) (exebin : pe_binary)
    (pre post : list section) (sect : section) (l : list log_record) :
  open_rb abs_fpath = Some data → 1 ≤ n →
  lief_parse abs_fpath = inr (PE format exebin) →
  sections exebin = pre ++ sect :: post →
  Forall section_named pre →
  name sect = None ∨ name sect = Some EmptyString →
  ∃ l', generate abs_fpath fname false n ibytes l = (inl ValueError, l').
Proof.
  intros Hopen Hn Hparse Hsects Hnamed Hsect.
  destruct (chunk_sizes_defined (Z.of_nat (length data)) n ltac:(lia) Hn)
    as (cs & nr & Hsizes).
  pose proof (chunk_sizes_scale_pos (Z.of_nat (length data)) n cs nr ltac:(lia) Hn Hsizes)
    as Hpos.
  assert (¬ (nr == 0)%Q) as Hnz by (intros Heq; rewrite Heq in Hpos; by apply Qlt_irrefl in Hpos).
  destruct (sample_file_requested abs_fpath fname n ibytes data cs nr l Hopen Hn Hsizes)
    as (chunks_read & _ & _ & Hrun).
  rewrite (generate_after_sampling _ _ _ _ _ _ _ _ Hrun). cbn [s_nr_chunksize].
  unfold annotate. rewrite Hparse.
  unfold mbind, py_bind, log, lift, chunk_index_of, mret, py_ret. cbn [format_of].
  rewrite truediv_nonzero by done. rewrite Hsects.
  edestruct (annotate_sections_unnamed nr pre post sect 0) as [l' ->]; [done..|].
  by eexists.
Qed.

(** X15.  For a file the parser recognises as something other than PE,
    [generate] in format-aware mode returns the figure of the sampling
    pass with no landmark; the two records it adds to the log are at the
    debug level (no warning is logged). *)
Theorem other_format_no_landmarks (abs_fpath fname format : string) (n : Z)
    (ibytes : gmap string (list Z)) (data : list byte) (l : list log_record) :
  open_rb abs_fpath = Some data → 1 ≤ n →
  lief_parse abs_fpath = inr (OtherBinary format) →
  ∃ s l1,
    sample_file abs_fpath fname n ibytes l = (inr s, l1) ∧
    generate abs_fpath fname false n ibytes l
    = (inr {| chunksize := s_chunksize s;
              nr_chunksize := s_nr_chunksize s;
              entropy_series := s_shannon_samples s;
              percentage_series := s_byte_ranges s;
              annotations := [];
              title_gap := 1 |},
       l1 ++ log_after_sampling fname ibytes
          ++ [(DEBUG, MsgParsed format); (DEBUG, MsgNotCustomised format)]).
Proof.
  intros Hopen Hn Hparse.
  destruct (chunk_sizes_defined (Z.of_nat (length data)) n ltac:(lia) Hn)
    as (cs & nr & Hsizes).
  destruct (sample_file_requested abs_fpath fname n ibytes data cs nr l Hopen Hn Hsizes)
    as (chunks_read & _ & _ & Hrun).
  eexists _, _. split; [exact Hrun|].
  rewrite (generate_after_sampling _ _ _ _ _ _ _ _ Hrun).
  unfold annotate. rewrite Hparse.
  unfold mbind, py_bind, log, mret, py_ret, figure_of. cbn.
  rewrite <- !app_assoc. do 2 f_equal. f_equal.
  destruct (Z.gtb_spec (Z.of_nat (size ibytes)) 0) as [_|Hsize]; [done|].
  assert (ibytes = ∅) as -> by (apply map_size_empty_iff; lia).
  unfold series_of. by rewrite fmap_empty.
Qed.
End FormatAware.

(** X12.  In blob mode the parser is never consulted: two environments
    with the same files and the same entropy function give the same
    outcome and the same log, whatever their parsers (and JSON decoders
    and plotting backends) are, for every chunk count. *)
Theorem blob_mode_ignores_parser (E1 E2 : Env) (abs_fpath fname : string) (n : Z)
    (ibytes : gmap string (list Z)) (l : list log_record) :
  @open_rb E1 = @open_rb E2 → @shannon_ent E1 = @shannon_ent E2 →
  generate (H := E1) abs_fpath fname true n ibytes l
  = generate (H := E2) abs_fpath fname true n ibytes l.
Proof.
  destruct E1 as [loads1 backend1 open1 parse1 ent1].
  destruct E2 as [loads2 backend2 open2 parse2 ent2].
  simpl. intros -> ->. reflexivity.
Qed.

Lemma blob_mode_ignores_parser_witness :
  generate (H := example_env) "/tmp/tiny.bin" "tiny.bin" true 2 __ibytes_dict__ []
  = generate (H := env_with [] (inr (PE "PE" example_pe)))
      "/tmp/tiny.bin" "tiny.bin" true 2 __ibytes_dict__ [].
Proof.
  apply (blob_mode_ignores_parser example_env (env_with [] (inr (PE "PE" example_pe))));
    reflexivity.
Defined.

Lemma blob_mode_figure_witness :
  ∃ s l1,
    sample_file (H := example_env) "/tmp/tiny.bin" "tiny.bin" 2 ∅ [] = (inr s, l1) ∧
    generate (H := example_env) "/tmp/tiny.bin" "tiny.bin" true 2 ∅ []
    = (inr {| chunksize := s_chunksize s;
              nr_chunksize := s_nr_chunksize s;
              entropy_series := s_shannon_samples s;
              percentage_series := s_byte_ranges s;
              annotations := [];
              title_gap := 1 |},
       l1 ++ log_after_sampling "tiny.bin" ∅ ++ [(WARNING, MsgBlob)]).
Proof.
  apply (blob_mode_figure (H := example_env) "/tmp/tiny.bin" "tiny.bin" 2 ∅
           [x4d; x5a; x00] []); [reflexivity | lia].
Defined.

Lemma example_pe_named : Forall section_named (sections example_pe).
Proof.
  apply Forall_cons. split; [by eexists _, _|].
  apply Forall_cons. split; [by eexists _, _|]. apply Forall_nil_2.
Defined.

Lemma pe_landmarks_witness :
  ∃ fig l',
    generate (H := env_with [] (inr (PE "PE" example_pe)))
      "/tmp/tiny.bin" "tiny.bin" false 2 ∅ [] = (inr fig, l') ∧
    chunk_sizes 3 2 = inr (chunksize fig, nr_chunksize fig) ∧
    annotations fig
    = ("EP"%string,
       (inject_Z (va_to_offset example_pe (entrypoint example_pe)) / nr_chunksize fig)%Q)
      :: (section_landmark (nr_chunksize fig) <$> sections example_pe) ∧
    title_gap fig = longest_label (sections example_pe) / 3.
Proof.
  apply (pe_landmarks (H := env_with [] (inr (PE "PE" example_pe)))
           "/tmp/tiny.bin" "tiny.bin" "PE" 2 ∅ [x4d; x5a; x00] example_pe []);
    [reflexivity | lia | reflexivity | exact example_pe_named].
Defined.

(** The landmarks of the example: scale 3/2, entry point at offset 4096,
    sections at 1024 and 8192; names of five characters, title gap 1. *)
Example example_pe_landmarks :
  ∃ fig l',
    generate (H := env_with [] (inr (PE "PE" example_pe)))
      "/tmp/tiny.bin" "tiny.bin" false 2 ∅ [] = (inr fig, l') ∧
    Forall2 (λ a b, a.1 = b.1 ∧ (a.2 == b.2)%Q) (annotations fig)
      [("EP"%string, 8192 # 3); (".text"%string, 2048 # 3); (".data"%string, 16384 # 3)] ∧
    title_gap fig = 1.
Proof.
  eexists _, _. split; [vm_compute; reflexivity|]. split; [|reflexivity].
  repeat constructor.
Qed.

Lemma pe_unnamed_section_aborts_witness :
  ∃ l',
    generate (H := env_with [] (inr (PE "PE" example_pe_unnamed)))
      "/tmp/tiny.bin" "tiny.bin" false 2 ∅ []
    = (inl ValueError, l').
Proof.
  apply (pe_unnamed_section_aborts
           (H := env_with [] (inr (PE "PE" example_pe_unnamed)))
           "/tmp/tiny.bin" "tiny.bin" "PE" 2 ∅ [x4d; x5a; x00] example_pe_unnamed
           [ {| name := Some ".text"%string; offset := 1024 |} ] []
           {| name := Some EmptyString; offset := 8192 |} []);
    [reflexivity | lia | reflexivity | reflexivity | | by right].
  apply Forall_cons. split; [by eexists _, _ | apply Forall_nil_2].
Defined.

Lemma other_format_no_landmarks_witness :
  ∃ s l1,
    sample_file (H := env_with [] (inr (OtherBinary "ELF")))
      "/tmp/tiny.bin" "tiny.bin" 2 ∅ [] = (inr s, l1) ∧
    generate (H := env_with [] (inr (OtherBinary "ELF")))
      "/tmp/tiny.bin" "tiny.bin" false 2 ∅ []
    = (inr {| chunksize := s_chunksize s;
              nr_chunksize := s_nr_chunksize s;
              entropy_series := s_shannon_samples s;
              percentage_series := s_byte_ranges s;
              annotations := [];
              title_gap := 1 |},
       l1 ++ log_after_sampling "tiny.bin" ∅
          ++ [(DEBUG, MsgParsed "ELF"); (DEBUG, MsgNotCustomised "ELF")]).
Proof.
  apply (other_format_no_landmarks (H := env_with [] (inr (OtherBinary "ELF")))
           "/tmp/tiny.bin" "tiny.bin" "ELF" 2 ∅ [x4d; x5a; x00] []);
    [reflexivity | lia | reflexivity].
Defined.

(** ** Tick labels *)

Lemma py_int_floor (q : Q) : (0 <= q)%Q → py_int q = Qfloor q.
Proof.
  unfold Qle, py_int, Qfloor. destruct q as [a b]. simpl. intros Ha.
  apply Z.quot_div_nonneg; lia.
Qed.

(** X16.  The offset printed for the tick at chunk index [i] never lies
    beyond the offset at which chunk [i] starts in the file, [i *
    chunksize]: the label is [i] times the unrounded scale, truncated.
    It is exactly the start of chunk [i] when the chunk count divides the
    file size, and also when the chunk count exceeds the file size. *)
Theorem tick_label_at_most_chunk_start (fs n chunksize : Z) (nr_chunksize : Q) (i : Z) :
  0 ≤ fs → 1 ≤ n → 0 ≤ i →
  chunk_sizes fs n = inr (chunksize, nr_chunksize) →
  tick_offset nr_chunksize (inject_Z i) ≤ i * chunksize ∧
  ((n | fs) ∨ fs < n → tick_offset nr_chunksize (inject_Z i) = i * chunksize).
Proof.
  intros Hfs Hn Hi Hsizes.
  pose proof (chunk_sizes_scale_pos fs n chunksize nr_chunksize Hfs Hn Hsizes) as Hpos.
  assert (0 <= inject_Z i)%Q as Hi' by (by rewrite <- (Zle_Qle 0)).
  unfold tick_offset, offset_of.
  rewrite py_int_floor by (apply Qmult_le_0_compat; [done | by apply Qlt_le_weak]).
  destruct (Z_lt_le_dec fs n) as [Hlt | Hle].
  - rewrite chunk_sizes_small in Hsizes by lia. inversion Hsizes; subst.
    rewrite Qmult_1_r, Qfloor_Z. split; [lia | intros _; lia].
  - rewrite chunk_sizes_large in Hsizes by lia. inversion Hsizes as [[Hcs Hnr]].
    pose proof (neg_floordiv_is_ceil fs n ltac:(lia)) as Hceil. rewrite Hcs in Hceil.
    unfold is_ceil in Hceil. rewrite !Hcs.
    assert (0 < inject_Z n)%Q as Hn' by (rewrite <- (Zlt_Qlt 0); lia).
    split.
    + rewrite <- (Qfloor_Z (i * chunksize)). apply Qfloor_resp_le.
      rewrite inject_Z_mult, !(Qmult_comm (inject_Z i)).
      apply Qmult_le_compat_r; [|done].
      apply Qle_shift_div_r; [done|]. rewrite <- inject_Z_mult, <- Zle_Qle. lia.
    + intros [[k Hk] | Hlt]; [|lia].
      assert (chunksize = k) as -> by nia.
      rewrite <- (Qfloor_Z (i * k)). apply Qfloor_comp.
      rewrite Hk, !inject_Z_mult. field. intros Hz. rewrite Hz in Hn'.
      by apply Qlt_irrefl in Hn'.
Qed.

Lemma tick_label_at_most_chunk_start_witness :
  tick_offset (inject_Z 1000 / inject_Z 10) (inject_Z 2) ≤ 2 * 100 ∧
  tick_offset (inject_Z 1000 / inject_Z 10) (inject_Z 2) = 2 * 100.
Proof.
  destruct (tick_label_at_most_chunk_start 1000 10 100 (inject_Z 1000 / inject_Z 10) 2)
    as [Hle Heq]; [lia | lia | lia | reflexivity |].
  split; [exact Hle|]. apply Heq. left. by exists 100.
Defined.

(** With 10 bytes in 3 chunks of 4 bytes, the tick at index 2 is labelled
    6 while chunk 2 starts at offset 8. *)
Example tick_label_behind_chunk_start :
  chunk_sizes 10 3 = inr (4, 10 # 3) ∧ tick_offset (10 # 3) (inject_Z 2) = 6.
Proof. split; reflexivity. Qed.

(** ** Validation of [--ibytes], continued *)

Lemma for_each_log_unchanged {A S} (body : A → S → py S) (xs : list A) (s : S)
    (l : list log_record) :
  (∀ x s l, (body x s l).2 = l) → (for_each xs body s l).2 = l.
Proof.
  intros Hbody. revert s l. induction xs as [|x xs IH]; intros s l; [done|].
  cbn [for_each]. unfold mbind, py_bind at 1. pose proof (Hbody x s l) as Hx.
  destruct (body x s l) as [[e|s'] l1]; simpl in *; subst; [done | apply IH].
Qed.

Lemma check_group_log_unchanged (name : string) (v : json) (l : list log_record) :
  (check_group name v l).2 = l.
Proof.
  unfold check_group, mbind, py_bind at 1, lift. simpl.
  destruct (py_len v) as [e|len]; [done|]. destruct (negb (len >? 0)); [done|].
  unfold mbind, py_bind. destruct (py_iter v) as [e|bs]; [done|].
  apply for_each_log_unchanged. intros b [] l0. unfold check_item.
  by destruct (negb (is_int b)).
Qed.

Lemma check_ibytes_log_unchanged (doc : json) (l : list log_record) :
  (check_ibytes doc l).2 = l.
Proof.
  unfold check_ibytes, mbind, py_bind at 1, lift.
  destruct (py_items doc) as [e|items]; [done|].
  apply for_each_log_unchanged. intros kv [] l0. apply check_group_log_unchanged.
Qed.

Section ValidationMore.
Context `{Env}.

(** X17.  Whatever the arguments and whatever the outcome, validation
    adds exactly one record to the log, the one about the plotting
    backend: no check on the spec logs anything. *)
Theorem validation_logs_backend_only (args : Args) (l : list log_record) :
  (args_validation args l).2 = l ++ [backend_record].
Proof.
  unfold args_validation, backend_record, mbind, py_bind, log, mret, py_ret.
  destruct (negb (String.eqb get_backend "TkAgg"));
    destruct (String.eqb (graphtype args) "all"); cbn [ibytes chunks];
    repeat match goal with
      | |- context [match ibytes ?a with _ => _ end] => destruct (ibytes a)
      | |- context [match json_loads ?t with _ => _ end] => destruct (json_loads t)
      | |- context [check_ibytes ?d ?l1] =>
          pose proof (check_ibytes_log_unchanged d l1);
          destruct (check_ibytes d l1) as [[?|?] ?]
      end; simpl in *; by subst.
Qed.

(** X18.  A text that decodes to something other than an object (a list,
    a number, a string, ...) is not reported as a validation error:
    [args.ibytes.items()] raises AttributeError. *)
Theorem validation_not_an_object (args : Args) (text : string) (doc : json)
    (l : list log_record) :
  graphtype args ≠ "all"%string → ibytes args = Some text → json_loads text = inr doc →
  (∀ items, doc ≠ JDict items) →
  args_validation args l = (inl AttributeError, l ++ [backend_record]).
Proof.
  intros Hall Htext Hdoc Hshape. rewrite (args_validation_decoded _ _ _ _ Hall Htext Hdoc).
  unfold check_ibytes, mbind, py_bind, lift. destruct doc; try done.
  by destruct (Hshape items).
Qed.

(** X19.  A group whose value has length 0 (an empty list, but also an
    empty string or an empty object) raises the validation error that
    names the group and the value, when the groups before it are well
    formed. *)
Theorem validation_empty_value (args : Args) (text name : string) (v : json)
    (pre post : list (string * json)) (l : list log_record) :
  graphtype args ≠ "all"%string → ibytes args = Some text →
  json_loads text = inr (JDict (pre ++ (name, v) :: post)) →
  Forall (λ kv : string * json, int_list kv.2) pre →
  py_len v = inr 0 →
  args_validation args l
  = (inl (ArgValidationEx (ErrNotList name v)), l ++ [backend_record]).
Proof.
  intros Hall Htext Hdoc Hpre Hlen. rewrite (args_validation_decoded _ _ _ _ Hall Htext Hdoc).
  unfold check_ibytes, mbind, py_bind at 1, lift. simpl.
  rewrite (check_groups_first_failure pre post name v
             (ArgValidationEx (ErrNotList name v)) _ Hpre); [done|].
  unfold check_group, mbind, py_bind, lift. simpl. by rewrite Hlen.
Qed.

(** X20.  A group whose value is not a list but can be iterated (a
    non-empty string or object) passes the test on the value and fails
    on its first element, a one-character string or a key: the validation
    error raised is the one for an item that is not an int, naming the
    group and that element. *)
Theorem validation_iterable_not_list (args : Args) (text name : string) (v b : json)
    (bs : list json) (pre post : list (string * json)) (l : list log_record) :
  graphtype args ≠ "all"%string → ibytes args = Some text →
  json_loads text = inr (JDict (pre ++ (name, v) :: post)) →
  Forall (λ kv : string * json, int_list kv.2) pre →
  is_list v = false → py_iter v = inr (b :: bs) →
  args_validation args l
  = (inl (ArgValidationEx (ErrNotInt name b)), l ++ [backend_record]).
Proof.
  intros Hall Htext Hdoc Hpre Hlist Hiter.
  rewrite (args_validation_decoded _ _ _ _ Hall Htext Hdoc).
  unfold check_ibytes, mbind, py_bind at 1, lift. simpl.
  rewrite (check_groups_first_failure pre post name v
             (ArgValidationEx (ErrNotInt name b)) _ Hpre); [done|].
  unfold check_group, mbind, py_bind, lift. simpl.
  destruct v as [| | | |s|bs0|items]; try done.
  - destruct s as [|c s]; [done|]. simpl in Hiter. inversion Hiter; subst.
    cbn [for_each]. unfold mbind, py_bind, check_item. by simpl.
  - destruct items as [|[k x] items]; [done|]. simpl in Hiter. inversion Hiter; subst.
    cbn [for_each]. unfold mbind, py_bind, check_item. by simpl.
Qed.

(** X21.  With the graph type [all] the values given for [--ibytes] and
    [--chunks] are ignored: the outcome is that of validating the default
    spec, and an accepted run leaves 750 chunks on [args]. *)
Theorem validation_all_uses_defaults (args : Args) (l : list log_record) :
  graphtype args = "all"%string →
  args_validation args l
  = args_validation {| graphtype := "all"; ibytes := Some __ibytes__; chunks := __chunks__ |} l ∧
  ∀ v l', args_validation args l = (inr v, l') → v_chunks v = 750.
Proof.
  intros Hall. assert (args_validation args l
    = args_validation {| graphtype := "all"; ibytes := Some __ibytes__;
                         chunks := __chunks__ |} l) as Heq.
  { unfold args_validation. rewrite Hall. reflexivity. }
  split; [exact Heq|]. intros v l'. rewrite Heq. clear Heq.
  unfold args_validation, mbind, py_bind, log, mret, py_ret.
  cbn [graphtype]. change (String.eqb "all" "all") with true. cbn [ibytes chunks].
  intros Hv.
  destruct (negb (String.eqb get_backend "TkAgg"));
    destruct (json_loads __ibytes__) as [e|doc]; try done;
    match type of Hv with context [check_ibytes ?d ?l1] =>
      destruct (check_ibytes d l1) as [[?|?] ?] end;
    try done; by inversion Hv.
Qed.
End ValidationMore.

Lemma validation_logs_backend_only_witness :
  (args_validation (H := example_env)
     {| graphtype := "ent"; ibytes := Some ("{" ++ dq ++ "g" ++ dq ++ ": 5}")%string;
        chunks := 750 |} []).2
  = [] ++ [backend_record (H := example_env)].
Proof. apply (validation_logs_backend_only (H := example_env)). Defined.

Lemma validation_not_an_object_witness :
  args_validation (H := env_with [("[1, 2]"%string, JList [JInt 1; JInt 2])] (inl "Unknown format"%string))
    {| graphtype := "ent"; ibytes := Some "[1, 2]"%string; chunks := 750 |} []
  = (inl AttributeError,
     [] ++ [backend_record
              (H := env_with [("[1, 2]"%string, JList [JInt 1; JInt 2])]
                      (inl "Unknown format"%string))]).
Proof.
  apply (validation_not_an_object
           (H := env_with [("[1, 2]"%string, JList [JInt 1; JInt 2])] (inl "Unknown format"%string))
           {| graphtype := "ent"; ibytes := Some "[1, 2]"%string; chunks := 750 |}
           "[1, 2]"%string (JList [JInt 1; JInt 2]) []);
    [discriminate | reflexivity | reflexivity | discriminate].
Defined.

Lemma validation_empty_value_witness :
  args_validation (H := example_env)
    {| graphtype := "ent"; ibytes := Some ("{" ++ dq ++ "g" ++ dq ++ ": []}")%string;
       chunks := 750 |} []
  = (inl (ArgValidationEx (ErrNotList "g" (JList []))),
     [] ++ [backend_record (H := example_env)]).
Proof.
  apply (validation_empty_value (H := example_env)
           {| graphtype := "ent"; ibytes := Some ("{" ++ dq ++ "g" ++ dq ++ ": []}")%string;
              chunks := 750 |}
           ("{" ++ dq ++ "g" ++ dq ++ ": []}")%string "g"%string (JList []) [] [] []);
    [discriminate | reflexivity | reflexivity | constructor | reflexivity].
Defined.

Lemma validation_iterable_not_list_witness :
  args_validation
    (H := env_with [(("{" ++ dq ++ "g" ++ dq ++ ": " ++ dq ++ "ab" ++ dq ++ "}")%string,
                     JDict [("g"%string, JStr "ab")])]
            (inl "Unknown format"%string))
    {| graphtype := "ent";
       ibytes := Some ("{" ++ dq ++ "g" ++ dq ++ ": " ++ dq ++ "ab" ++ dq ++ "}")%string;
       chunks := 750 |} []
  = (inl (ArgValidationEx (ErrNotInt "g" (JStr "a"))),
     [] ++ [backend_record (H := example_env)]).
Proof.
  apply (validation_iterable_not_list
           (H := env_with [(("{" ++ dq ++ "g" ++ dq ++ ": " ++ dq ++ "ab" ++ dq ++ "}")%string,
                            JDict [("g"%string, JStr "ab")])]
                   (inl "Unknown format"%string))
           {| graphtype := "ent";
              ibytes := Some ("{" ++ dq ++ "g" ++ dq ++ ": " ++ dq ++ "ab" ++ dq ++ "}")%string;
              chunks := 750 |}
           ("{" ++ dq ++ "g" ++ dq ++ ": " ++ dq ++ "ab" ++ dq ++ "}")%string
           "g"%string (JStr "ab") (JStr "a") [JStr "b"] [] [] []);
    [discriminate | reflexivity | reflexivity | constructor | reflexivity | reflexivity].
Defined.

Lemma validation_all_uses_defaults_witness :
  args_validation (H := env_with [(__ibytes__, __ibytes_json__)] (inl "Unknown format"%string))
    {| graphtype := "all"; ibytes := Some "{not valid}"%string; chunks := 3 |} []
  = args_validation (H := env_with [(__ibytes__, __ibytes_json__)] (inl "Unknown format"%string))
      {| graphtype := "all"; ibytes := Some __ibytes__; chunks := __chunks__ |} [] ∧
  ∀ v l',
    args_validation (H := env_with [(__ibytes__, __ibytes_json__)] (inl "Unknown format"%string))
      {| graphtype := "all"; ibytes := Some "{not valid}"%string; chunks := 3 |} []
    = (inr v, l') → v_chunks v = 750.
Proof.
  apply (validation_all_uses_defaults
           (H := env_with [(__ibytes__, __ibytes_json__)] (inl "Unknown format"%string))
           {| graphtype := "all"; ibytes := Some "{not valid}"%string; chunks := 3 |} []).
  reflexivity.
Defined.

(** With the graph type [all], a malformed [--ibytes] and 3 chunks are
    replaced by the default spec and 750 chunks, and validation passes. *)
Example all_defaults_accepted :
  args_validation (H := env_with [(__ibytes__, __ibytes_json__)] (inl "Unknown format"%string))
    {| graphtype := "all"; ibytes := Some "{not valid}"%string; chunks := 3 |} []
  = (inr {| v_ibytes := __ibytes_json__; v_chunks := 750 |}, [(DEBUG, MsgBackend "TkAgg")]).
Proof. vm_compute. reflexivity. Qed.

Lemma args_validation_decode_error_witness :
  args_validation (H := example_env)
    {| graphtype := "ent"; ibytes := Some "{not valid}"%string; chunks := 750 |} []
  = (inl (ArgValidationEx
            (ErrDecoding "Expecting property name enclosed in double quotes" "{not valid}")),
     [] ++ [backend_record (H := example_env)]).
Proof.
  apply (args_validation_decode_error (H := example_env)
           {| graphtype := "ent"; ibytes := Some "{not valid}"%string; chunks := 750 |}
           "{not valid}"%string
           "Expecting property name enclosed in double quotes"%string []);
    [discriminate | reflexivity | reflexivity].
Defined.

Lemma args_validation_not_int_witness :
  args_validation
    (H := env_with [(("{" ++ dq ++ "g" ++ dq ++ ": [1, true]}")%string,
                     JDict [("g"%string, JList [JInt 1; JBool true])])]
            (inl "Unknown format"%string))
    {| graphtype := "ent"; ibytes := Some ("{" ++ dq ++ "g" ++ dq ++ ": [1, true]}")%string;
       chunks := 750 |} []
  = (inl (ArgValidationEx (ErrNotInt "g" (JBool true))),
     [] ++ [backend_record (H := example_env)]).
Proof.
  apply (args_validation_not_int
           (H := env_with [(("{" ++ dq ++ "g" ++ dq ++ ": [1, true]}")%string,
                            JDict [("g"%string, JList [JInt 1; JBool true])])]
                   (inl "Unknown format"%string))
           {| graphtype := "ent";
              ibytes := Some ("{" ++ dq ++ "g" ++ dq ++ ": [1, true]}")%string;
              chunks := 750 |}
           ("{" ++ dq ++ "g" ++ dq ++ ": [1, true]}")%string "g"%string
           [] [] [JInt 1] [] (JBool true) []);
    [discriminate | reflexivity | reflexivity | constructor | | reflexivity].
  apply Forall_cons. split; [by eexists | apply Forall_nil_2].
Defined.

(** ** Edge cases of the sampling pass *)

Section SamplingEdges.
Context `{Env}.

(** X24.  An empty file is sampled without error for every chunk count
    [n >= 1]: chunk size and scale are 1, the entropy series is empty and
    every group of the spec has an empty percentage series. *)
Theorem empty_file_empty_series (abs_fpath fname : string) (n : Z)
    (ibytes : gmap string (list Z)) (l : list log_record) :
  open_rb abs_fpath = Some [] → 1 ≤ n →
  sample_file abs_fpath fname n ibytes l
  = (inr {| s_chunksize := 1;
            s_nr_chunksize := 1;
            s_shannon_samples := [];
            s_byte_ranges := (λ _, []) <$> ibytes |},
     l ++ [(DEBUG, MsgOpening fname); (DEBUG, MsgSizes 0 1 1 n); (DEBUG, MsgIteration 1)]).
Proof.
  intros Hopen Hn.
  destruct (sample_file_result abs_fpath fname n ibytes [] 1 1%Q l Hopen)
    as (chunks_read & _ & Hchunked & Hrun); [apply chunk_sizes_small; simpl; lia | lia |].
  apply chunked_nil_inv in Hchunked. subst chunks_read. exact Hrun.
Qed.

(** X25.  When the chunk count divides the size of the file, the request
    is met exactly: the chunk size is [fs / n] and the series has [n]
    entries. *)
Theorem exact_count_when_divisible (abs_fpath fname : string) (n : Z)
    (ibytes : gmap string (list Z)) (data : list byte) (l : list log_record) :
  open_rb abs_fpath = Some data → 1 ≤ n →
  let fs := Z.of_nat (length data) in
  n ≤ fs → (n | fs) →
  ∃ s l',
    sample_file abs_fpath fname n ibytes l = (inr s, l') ∧
    s_chunksize s = fs / n ∧
    Z.of_nat (length (s_shannon_samples s)) = n.
Proof.
  intros Hopen Hn fs Hle [k Hk].
  assert (chunk_sizes fs n = inr (k, (inject_Z fs / inject_Z n)%Q)) as Hsizes.
  { rewrite chunk_sizes_large by lia. do 3 f_equal.
    pose proof (neg_floordiv_is_ceil fs n ltac:(lia)) as Hceil. unfold is_ceil in Hceil. nia. }
  assert (1 ≤ k) as Hpos by nia.
  destruct (sample_file_result abs_fpath fname n ibytes data _ _ l Hopen Hsizes ltac:(lia))
    as (chunks_read & _ & Hchunked & Hrun).
  pose proof (chunked_count k data chunks_read Hpos Hchunked) as Hcount.
  fold fs in Hcount. unfold is_ceil in Hcount.
  eexists _, _. split; [exact Hrun|]. simpl. split.
  - rewrite Hk. symmetry. apply Z.div_mul. lia.
  - rewrite length_fmap. nia.
Qed.
End SamplingEdges.

Lemma empty_file_empty_series_witness :
  sample_file (H := env_with_file []) "/tmp/empty.bin" "empty.bin" 750 __ibytes_dict__ []
  = (inr {| s_chunksize := 1;
            s_nr_chunksize := 1;
            s_shannon_samples := [];
            s_byte_ranges := (λ _, []) <$> __ibytes_dict__ |},
     [] ++ [(DEBUG, MsgOpening "empty.bin"); (DEBUG, MsgSizes 0 1 1 750);
            (DEBUG, MsgIteration 1)]).
Proof.
  apply (empty_file_empty_series (H := env_with_file []) "/tmp/empty.bin" "empty.bin" 750
           __ibytes_dict__ []); [reflexivity | lia].
Defined.

Lemma exact_count_when_divisible_witness :
  ∃ s l',
    sample_file (H := example_env) "/tmp/zeros.bin" "zeros.bin" 10 ∅ [] = (inr s, l') ∧
    s_chunksize s = 1000 / 10 ∧
    Z.of_nat (length (s_shannon_samples s)) = 10.
Proof.
  apply (exact_count_when_divisible (H := example_env) "/tmp/zeros.bin" "zeros.bin" 10 ∅
           (replicate 1000 x00) []); [reflexivity | lia | simpl; lia | by exists 100].
Defined.

Lemma filter_all (P : Z → Prop) `{∀ x, Decision (P x)} (l : list Z) :
  Forall P l → filter P l = l.
Proof.
  induction 1 as [|x l Hx _ IH]; [done|]. rewrite filter_cons_True by done. by rewrite IH.
Qed.

(** X26.  A group that lists every byte value from 0 to 255 once has the
    percentage 100 on every non-empty chunk read from a file. *)
Theorem full_range_group_is_100 (bytes : list byte) :
  bytes ≠ [] →
  ∃ pc,
    percentage (occurrences (Counter (ints_of_bytes bytes)) (seqZ 0 256)) (ints_of_bytes bytes)
    = inr pc ∧
    (pc == 100)%Q.
Proof.
  intros Hne. assert (ints_of_bytes bytes ≠ []) as Hne'.
  { intros Hnil. apply Hne. apply (f_equal length) in Hnil.
    rewrite ints_of_bytes_length in Hnil. by apply length_zero_iff_nil. }
  eexists. split; [by apply percentage_nonempty|].
  rewrite occurrences_Counter, listed_occurrences_NoDup by apply NoDup_seqZ.
  assert (matching (seqZ 0 256) (ints_of_bytes bytes)
          = Z.of_nat (length (ints_of_bytes bytes))) as ->.
  { unfold matching. rewrite filter_all; [done|]. apply Forall_forall. intros x Hx.
    apply ints_of_bytes_range in Hx. apply elem_of_seqZ. lia. }
  unfold percent_of. pose proof (chunk_length_pos _ Hne') as Hpos.
  field. intros Hz. rewrite Hz in Hpos. by apply Qlt_irrefl in Hpos.
Qed.

Lemma full_range_group_is_100_witness :
  ∃ pc,
    percentage (occurrences (Counter (ints_of_bytes [x4d; x5a; x00])) (seqZ 0 256))
      (ints_of_bytes [x4d; x5a; x00]) = inr pc ∧
    (pc == 100)%Q.
Proof. by apply (full_range_group_is_100 [x4d; x5a; x00]). Defined.
